(** * AccountManager: selector resolution, roster cache and multi-account fan-out

    A shallow embedding of [AccountManager.py] (class [AccountManagerMod]).

    Text is modelled on the Latin-1 range: a Python [str] is a Rocq [string]
    whose characters are the code points 0..255.  On that range the builtins
    [str.isdigit], [str.lower], [str.lstrip] and [int] are written out below
    exactly as CPython computes them ([int] without the interpreter's optional
    limit on the number of digits).

    Awaited calls into the messaging client and the host framework are
    requests answered by an environment that may make any of them raise;
    [asyncio.sleep] and [time.monotonic] are local effects that never raise.
    The clock and the stamp of the cache are binary64 floats, as in Python,
    and the age of the cache is computed with their subtraction and
    comparison; the pauses are the decimal literals of the source.
    Only exceptions deriving from [Exception] are modelled, which is what the
    module's [except Exception] clauses catch. *)

From Stdlib Require Import ZArith QArith Floats List String Ascii Bool Lia.
From Stdlib Require Import Decimal DecimalString DecimalPos DecimalZ.
Import ListNotations.

Local Open Scope Z_scope.
Local Open Scope string_scope.
Local Open Scope bool_scope.

(** ** Python values shared by the whole module *)

Inductive exn : Type :=
| ValueError
| IndexError
| ZeroDivisionError
| AttributeError
| RemoteError (code : nat).

Inductive outcome (A : Type) : Type :=
| Return (a : A)
| Raise (e : exn).

Arguments Return {A} a.
Arguments Raise {A} e.

(** ** String builtins on Latin-1 text *)

Definition ord (c : ascii) : N := N_of_ascii c.

Definition between (lo hi : N) (c : ascii) : bool :=
  ((lo <=? ord c) && (ord c <=? hi))%N.

Fixpoint all_chars (p : ascii -> bool) (s : string) : bool :=
  match s with
  | EmptyString => true
  | String c r => p c && all_chars p r
  end.

Fixpoint has_char (c : ascii) (s : string) : bool :=
  match s with
  | EmptyString => false
  | String d r => Ascii.eqb c d || has_char c r
  end.

Definition truthy (s : string) : bool :=
  match s with EmptyString => false | String _ _ => true end.

(** The decimal digits [0-9]. *)
Definition is_decimal (c : ascii) : bool := between 48 57 c.

(** [str.isdigit] on one character: the decimal digits and the superscripts
    U+00B2, U+00B3 and U+00B9. *)
Definition is_digit_char (c : ascii) : bool :=
  is_decimal c || (ord c =? 178)%N || (ord c =? 179)%N || (ord c =? 185)%N.

(** [s.isdigit()]: non-empty and every character a digit. *)
Definition isdigit (s : string) : bool := truthy s && all_chars is_digit_char s.

(** [str.lower] on one character: [A-Z] and U+00C0..U+00DE except U+00D7. *)
Definition lower_char (c : ascii) : ascii :=
  if between 65 90 c || (between 192 222 c && negb (ord c =? 215)%N)
  then ascii_of_N (ord c + 32)
  else c.

Fixpoint lower (s : string) : string :=
  match s with
  | EmptyString => EmptyString
  | String c r => String (lower_char c) (lower r)
  end.

(** [s.lstrip(chars)]: drops every leading character that occurs in [chars]. *)
Fixpoint lstrip (chars : string) (s : string) : string :=
  match s with
  | EmptyString => EmptyString
  | String c r => if has_char c chars then lstrip chars r else s
  end.

(** [s.rstrip(chars)]. *)
Fixpoint rstrip (chars : string) (s : string) : string :=
  match s with
  | EmptyString => EmptyString
  | String c r =>
      match rstrip chars r with
      | EmptyString => if has_char c chars then EmptyString else String c EmptyString
      | r' => String c r'
      end
  end.

(** White space that [int] skips around its argument. *)
Definition int_space (c : ascii) : bool :=
  between 9 13 c || (ord c =? 32)%N || (ord c =? 133)%N || (ord c =? 160)%N.

Fixpoint skip_left (p : ascii -> bool) (s : string) : string :=
  match s with
  | EmptyString => EmptyString
  | String c r => if p c then skip_left p r else s
  end.

Fixpoint skip_right (p : ascii -> bool) (s : string) : string :=
  match s with
  | EmptyString => EmptyString
  | String c r =>
      match skip_right p r with
      | EmptyString => if p c then EmptyString else String c EmptyString
      | r' => String c r'
      end
  end.

Definition digit_value (c : ascii) : Z := Z.of_N (ord c) - 48.

(** The digit part of an integer literal: decimal digits, single underscores
    allowed between two digits.  [after_digit] tells whether the previous
    character was a digit. *)
Fixpoint int_digits (acc : Z) (after_digit : bool) (s : string) : option Z :=
  match s with
  | EmptyString => if after_digit then Some acc else None
  | String c r =>
      if is_decimal c then int_digits (10 * acc + digit_value c) true r
      else if (ord c =? 95)%N && after_digit then int_digits acc false r
      else None
  end.

(** [int(s)] for a string [s], base 10, without the bound CPython puts on
    the number of digits (4300 unless configured otherwise). *)
Definition int (s : string) : outcome Z :=
  let body := skip_right int_space (skip_left int_space s) in
  let parsed :=
    match body with
    | String "-" r => option_map Z.opp (int_digits 0 false r)
    | String "+" r => int_digits 0 false r
    | _ => int_digits 0 false body
    end in
  match parsed with
  | Some v => Return v
  | None => Raise ValueError
  end.

(** [str(k)] for an integer [k]. *)
Definition str (k : Z) : string := NilZero.string_of_int (Z.to_int k).

(** ** Accounts *)

(** A client session; [==] on sessions is object identity. *)
Inductive client : Type := Session (oid : nat).

Definition client_eqb (a b : client) : bool :=
  match a, b with Session x, Session y => Nat.eqb x y end.

(** What [get_me] answers.  [getattr(user, name, None)] reads a field that
    may be missing, hence the options. *)
Record user : Type := User {
  id : option Z;
  username : option string
}.

(** A roster entry, the dict [{"client": c, "user": me}]. *)
Record account : Type := Account {
  acc_client : client;
  acc_user : user
}.

(** [for i, acc in enumerate(accounts): if p(acc): return i], the index
    counted from [i]. *)
Fixpoint first_index (p : account -> bool) (i : nat) (accounts : list account)
  : option nat :=
  match accounts with
  | [] => None
  | acc :: rest => if p acc then Some i else first_index p (S i) rest
  end.

Definition has_id (uid : Z) (acc : account) : bool :=
  match id (acc_user acc) with
  | Some x => Z.eqb x uid
  | None => false
  end.

Definition has_username (sel : string) (acc : account) : bool :=
  match username (acc_user acc) with
  | Some uname => truthy uname && String.eqb (lower uname) sel
  | None => false
  end.

Definition by_username (sel : string) (accounts : list account) : option nat :=
  first_index (has_username sel) 0 accounts.

Definition by_user_id (raw sel : string) (accounts : list account)
  : outcome (option nat) :=
  if isdigit (lstrip "-" raw) then
    match int raw with
    | Raise e => Raise e
    | Return uid =>
        match first_index (has_id uid) 0 accounts with
        | Some i => Return (Some i)
        | None => Return (by_username sel accounts)
        end
    end
  else Return (by_username sel accounts).

Definition _resolve_account (selector : string) (accounts : list account)
  : outcome (option nat) :=
  if negb (truthy selector) then Return None
  else
    let raw := selector in
    let sel := lstrip "@" (lower selector) in
    if isdigit raw then
      match int raw with
      | Raise e => Raise e
      | Return idx =>
          if Z.leb 1 idx && Z.leb idx (Z.of_nat (List.length accounts))
          then Return (Some (Z.to_nat (idx - 1)))
          else by_user_id raw sel accounts
      end
    else by_user_id raw sel accounts.

(** ** More string builtins, used by the commands *)

(** [str.isspace] on one character. *)
Definition is_space (c : ascii) : bool :=
  between 9 13 c || between 28 32 c || (ord c =? 133)%N || (ord c =? 160)%N.

(** [s.strip()]. *)
Definition strip (s : string) : string :=
  skip_right is_space (skip_left is_space s).

(** [sep.join(parts)]. *)
Definition join (sep : string) (parts : list string) : string :=
  String.concat sep parts.

(** [sub in s]. *)
Fixpoint contains (sub s : string) : bool :=
  match s with
  | EmptyString => negb (truthy sub)
  | String _ r => String.prefix sub s || contains sub r
  end.

(** [s.rsplit(sep, 1)[-1]] for a one-character separator. *)
Fixpoint rsplit_last (sep : ascii) (s : string) : string :=
  match s with
  | EmptyString => EmptyString
  | String c r =>
      if has_char sep r then rsplit_last sep r
      else if Ascii.eqb c sep then r else s
  end.

(** [s.replace(c, "")] for a one-character [c]. *)
Fixpoint remove_char (c : ascii) (s : string) : string :=
  match s with
  | EmptyString => EmptyString
  | String d r => if Ascii.eqb d c then remove_char c r else String d (remove_char c r)
  end.

(** ** The outside world *)

Record chat : Type := Chat {
  chat_key : Z;
  chat_username : option string
}.

Record message : Type := Message {
  msg_id : Z;
  chat_id : Z;
  get_args : list string
}.

Inductive peer : Type := InputPeer (key : Z).

Inductive reason : Type :=
| Spam | Violence | Pornography | ChildAbuse | Copyright | Other.

(** One row of the account listing, [strings("list_row").format(...)]. *)
Record row : Type := Row {
  row_idx : nat;
  row_title : user;
  row_user_id : Z;
  row_main : bool
}.

(** The texts the commands answer with: an entry of [strings] and the
    arguments it is formatted with.  [report_done] carries the names of the
    reasons in the order they were parsed: the source joins the set of these
    names, and the order in which a set is gone through is not fixed. *)
Inductive reply : Type :=
| no_accounts
| list_header (rows : list row)
| say_usage
| say_missing_text
| say_not_found_selector (selector : string)
| say_sent (num : nat) (count : Z)
| report_need_reply
| report_not_in_chat (num : nat)
| report_done (ok total : nat) (reasons : list string)
| join_ok (ok total : nat)
| join_fail (label : string)
| spam_usage
| spam_bad_count
| spam_sent (sent_from : option user) (count : Z).

(** The awaited calls, indexed by the type of what they answer. *)
Inductive request : Type -> Type :=
| get_me (c : client) : request user
| get_permissions (c : client) (ch : chat) : request unit
| get_input_entity (c : client) (ch : chat) : request peer
| send_message (c : client) (to : Z) (text : string) (reply_to : option Z)
    : request unit
| JoinChannelRequest (c : client) (channel : string) : request unit
| ImportChatInviteRequest (c : client) (hash : string) : request unit
| ExportChatInviteRequest (c : client) (p : peer) : request (option string)
| InviteToChannelRequest (c : client) (channel : chat) (users : list user)
    : request unit
| ReportRequest (c : client) (p : peer) (ids : list Z) (r : reason)
    (text : string) : request unit
| answer (m : message) (text : reply) : request unit
| delete (m : message) : request unit
| get_reply_message (m : message) : request (option message)
| get_chat (m : message) : request chat.

Inductive event : Type :=
| Called {T : Type} (r : request T)
| Slept (d : Q)
| Clock.

(** The environment answers a request, and tells the time, from everything
    that happened so far. *)
Record environment : Type := Environment {
  respond : forall T : Type, list event -> request T -> outcome T;
  monotonic : list event -> float
}.

(** The attributes of the module object the commands read and write. *)
Record module : Type := Module_ {
  _accounts_cache : list account;
  _accounts_cache_ts : float;
  _client : option client;
  allclients : option (list client)
}.

Record state : Type := State {
  self : module;
  trace : list event
}.

(** ** A state and exception monad for the coroutines *)

Definition M (A : Type) : Type := state -> outcome A * state.

Definition ret {A} (a : A) : M A := fun s => (Return a, s).

Definition raise {A} (e : exn) : M A := fun s => (Raise e, s).

Definition bind {A B} (m : M A) (k : A -> M B) : M B :=
  fun s =>
    match m s with
    | (Return a, s') => k a s'
    | (Raise e, s') => (Raise e, s')
    end.

(** [try: m except Exception: h]. *)
Definition try_except {A} (m : M A) (h : M A) : M A :=
  fun s =>
    match m s with
    | (Return a, s') => (Return a, s')
    | (Raise _, s') => h s'
    end.

Definition lift {A} (o : outcome A) : M A := fun s => (o, s).

Definition get_self : M module := fun s => (Return (self s), s).

Definition log (e : event) : M unit :=
  fun s => (Return tt, State (self s) (trace s ++ [e])).

Declare Scope py_scope.
Delimit Scope py_scope with py.
Notation "x <- m ;; k" := (bind m (fun x => k))
  (at level 100, m at next level, right associativity) : py_scope.
Notation "' p <- m ;; k" := (bind m (fun p => k))
  (at level 100, p pattern, m at next level, right associativity) : py_scope.
Notation "m ;; k" := (bind m (fun _ => k))
  (at level 100, right associativity) : py_scope.
Local Open Scope py_scope.

Definition when (b : bool) (m : M unit) : M unit := if b then m else ret tt.

(** [with contextlib.suppress(Exception): m]. *)
Definition suppress (m : M unit) : M unit := try_except m (ret tt).

(** [await asyncio.sleep(d)]. *)
Definition sleep (d : Q) : M unit := log (Slept d).

Definition set_accounts_cache (accounts : list account) : M unit :=
  fun s =>
    let m := self s in
    (Return tt,
     State (Module_ accounts (_accounts_cache_ts m) (_client m) (allclients m))
           (trace s)).

Definition set_accounts_cache_ts (t : float) : M unit :=
  fun s =>
    let m := self s in
    (Return tt,
     State (Module_ (_accounts_cache m) t (_client m) (allclients m)) (trace s)).

(** ** The coroutines of [AccountManagerMod] *)

Definition _extract_silent (args : list string) : list string * bool :=
  match args with
  | [] => (args, false)
  | _ =>
      let last := rstrip "." (lower (List.last args "")) in
      if String.eqb last "-s" || String.eqb last "s"
      then (List.removelast args, true)
      else (args, false)
  end.

Definition _reason_map (key : string) : option (reason * string) :=
  if String.eqb key "spam" then Some (Spam, "Spam")
  else if String.eqb key "violence" then Some (Violence, "Violence")
  else if String.eqb key "pornography" then Some (Pornography, "Pornography")
  else if String.eqb key "childabuse" then Some (ChildAbuse, "ChildAbuse")
  else if String.eqb key "copyright" then Some (Copyright, "Copyright")
  else if String.eqb key "other" then Some (Other, "Other")
  else None.

Definition _parse_reasons (args : list string) : list (reason * string) :=
  match args with
  | [] => [(Spam, "Spam"); (Other, "Other")]
  | a :: _ =>
      match _reason_map (lower a) with
      | Some mapped => [mapped]
      | None => [(Spam, "Spam"); (Other, "Other")]
      end
  end.

(** The pacing constants of the commands, in seconds. *)
Definition say_pause : Q := 35 # 100.
Definition report_pause : Q := 25 # 100.
Definition join_pause : Q := 2 # 10.
Definition spam_pause : Q := 15 # 100.
Definition spam_round_pause : Q := 1 # 10.

(** [acc["client"] == self._client], which decides the [main_tag]. *)
Definition is_main (m : module) (acc : account) : bool :=
  match _client m with
  | Some c => client_eqb (acc_client acc) c
  | None => false
  end.

Section Coroutines.

Variable env : environment.

(** [await r]: the environment answers from the trace so far. *)
Definition call {T} (r : request T) : M T :=
  fun s => (respond env T (trace s) r, State (self s) (trace s ++ [Called r])).

(** [time.monotonic()]. *)
Definition now : M float :=
  fun s => (Return (monotonic env (trace s)), State (self s) (trace s ++ [Clock])).

(** The loop of [_refresh_accounts] over [clients]; [c.get_me()] on a
    missing client is an [AttributeError], caught like any other. *)
Fixpoint query_clients (clients : list (option client)) (accounts : list account)
  : M (list account) :=
  match clients with
  | [] => ret accounts
  | c :: rest =>
      match c with
      | Some c =>
          me <- try_except (u <- call (get_me c);; ret (Some u)) (ret None);;
          match me with
          | Some me => query_clients rest (accounts ++ [Account c me])
          | None => query_clients rest accounts
          end
      | None => query_clients rest accounts
      end
  end.

(** [getattr(self, "allclients", None) or [self._client]]. *)
Definition clients_of (m : module) : list (option client) :=
  match allclients m with
  | Some (c :: l) => map Some (c :: l)
  | _ => [_client m]
  end.

Definition _refresh_accounts (force : bool) : M (list account) :=
  m <- get_self;;
  fresh <- (if negb force && negb (Nat.eqb (List.length (_accounts_cache m)) 0)
            then (t <- now;; ret (t - _accounts_cache_ts m <? 60)%float)
            else ret false);;
  if fresh then ret (_accounts_cache m)
  else
    accounts <- query_clients (clients_of m) [];;
    set_accounts_cache accounts;;
    t <- now;;
    set_accounts_cache_ts t;;
    ret accounts.

Definition _export_invite_link (ch : chat) : M (option string) :=
  m <- get_self;;
  match _client m with
  | None => ret None
  | Some main =>
      try_except
        (p <- call (get_input_entity main ch);;
         call (ExportChatInviteRequest main p))
        (ret None)
  end.

Definition _join_with_link (c : client) (link : string) : M bool :=
  if negb (truthy link) then ret false
  else
    try_except
      ((if contains "joinchat" link || contains "+" link
        then call (ImportChatInviteRequest c
                     (remove_char "+" (rsplit_last "/" link)))
        else call (JoinChannelRequest c (rsplit_last "/" link)));;
       ret true)
      (ret false).

(** [try: await m; return True / except Exception: pass]: [true] when the
    function has returned. *)
Definition attempt (m : M unit) : M bool :=
  try_except (m;; ret true) (ret false).

Definition _ensure_in_chat (c : client) (ch : chat) (user_entity : user) : M bool :=
  done <- attempt (call (get_permissions c ch));;
  if done then ret true
  else
    done <- match chat_username ch with
            | Some username =>
                if truthy username
                then attempt (call (JoinChannelRequest c username))
                else ret false
            | None => ret false
            end;;
    if done then ret true
    else
      invite_link <- _export_invite_link ch;;
      done <- match invite_link with
              | Some link =>
                  if truthy link then
                    joined <- _join_with_link c link;;
                    if joined then attempt (call (get_permissions c ch))
                    else ret false
                  else ret false
              | None => ret false
              end;;
      if done then ret true
      else
        m <- get_self;;
        done <- match _client m with
                | Some main =>
                    if negb (client_eqb main c) then
                      try_except
                        (call (get_permissions main ch);;
                         attempt
                           (call (InviteToChannelRequest main ch [user_entity]);;
                            call (get_permissions c ch)))
                        (ret false)
                    else ret false
                | None => ret false
                end;;
        if done then ret true else ret false.

(** The rows of [listacccmd], [enumerate(accounts, start=idx)]; [user.id]
    on a user without that attribute is an [AttributeError]. *)
Fixpoint list_rows (m : module) (idx : nat) (accounts : list account)
  : outcome (list row) :=
  match accounts with
  | [] => Return []
  | acc :: rest =>
      match id (acc_user acc) with
      | None => Raise AttributeError
      | Some uid =>
          match list_rows m (S idx) rest with
          | Return rows => Return (Row idx (acc_user acc) uid (is_main m acc) :: rows)
          | Raise e => Raise e
          end
      end
  end.

Definition listacccmd (msg : message) : M unit :=
  let '(args, silent) := _extract_silent (get_args msg) in
  accounts <- _refresh_accounts true;;
  match accounts with
  | [] =>
      (if silent then suppress (call (delete msg)) else ret tt);;
      call (answer msg no_accounts)
  | _ =>
      m <- get_self;;
      rows <- lift (list_rows m 1 accounts);;
      if silent then suppress (call (delete msg))
      else call (answer msg (list_header rows))
  end.

(** [for _ in range(repeat)] of [saycmd]. *)
Fixpoint say_loop (n : nat) (target : client) (to : Z) (text : string)
  (reply_to : option Z) (repeat : Z) : M unit :=
  match n with
  | O => ret tt
  | S n' =>
      call (send_message target to text reply_to);;
      when (3 <? repeat)%Z (sleep say_pause);;
      say_loop n' target to text reply_to repeat
  end.

(** The optional trailing count of [saycmd]: the count and the remaining
    text parts. *)
Definition say_repeat (text_parts : list string) : outcome (Z * list string) :=
  if (1 <? List.length text_parts)%nat && isdigit (List.last text_parts "")
  then match int (List.last text_parts "") with
       | Return v => Return (Z.max 1 v, List.removelast text_parts)
       | Raise e => Raise e
       end
  else Return (1, text_parts).

Definition saycmd (msg : message) : M unit :=
  let '(args, silent) := _extract_silent (get_args msg) in
  match args with
  | acc_selector :: ((_ :: _) as text_parts) =>
      '(repeat, text_parts) <- lift (say_repeat text_parts);;
      let text := strip (join " " text_parts) in
      if negb (truthy text) then call (answer msg say_missing_text)
      else
        accounts <- _refresh_accounts false;;
        idx <- lift (_resolve_account acc_selector accounts);;
        match idx with
        | None => call (answer msg (say_not_found_selector acc_selector))
        | Some idx =>
            match nth_error accounts idx with
            | None => raise IndexError
            | Some acc =>
                reply <- call (get_reply_message msg);;
                let reply_to := option_map msg_id reply in
                say_loop (Z.to_nat repeat) (acc_client acc) (chat_id msg) text
                  reply_to repeat;;
                if negb silent then call (answer msg (say_sent (idx + 1) repeat))
                else call (delete msg)
            end
        end
  | _ => call (answer msg say_usage)
  end.

(** [for reason_cls, reason_name in reasons] of [reportcmd]. *)
Fixpoint report_reasons (c : client) (p : peer) (reply_id : Z)
  (reasons : list (reason * string)) : M unit :=
  match reasons with
  | [] => ret tt
  | (reason_cls, reason_name) :: rest =>
      suppress (call (ReportRequest c p [reply_id] reason_cls reason_name));;
      report_reasons c p reply_id rest
  end.

(** [for idx, acc in enumerate(accounts, start=idx)] of [reportcmd], the
    loop running over [rest] with [total = len(accounts)]; answers the final
    value of [success]. *)
Fixpoint report_loop (msg : message) (ch : chat) (reply_id : Z)
  (reasons : list (reason * string)) (total : nat)
  (idx : nat) (rest : list account) (success : nat) : M nat :=
  match rest with
  | [] => ret success
  | acc :: rest' =>
      let c := acc_client acc in
      let user_entity := acc_user acc in
      in_chat <- _ensure_in_chat c ch user_entity;;
      if negb in_chat then
        call (answer msg (report_not_in_chat idx));;
        report_loop msg ch reply_id reasons total (S idx) rest' success
      else
        p <- try_except (p <- call (get_input_entity c ch);; ret (Some p)) (ret None);;
        match p with
        | None =>
            call (answer msg (report_not_in_chat idx));;
            report_loop msg ch reply_id reasons total (S idx) rest' success
        | Some p =>
            report_reasons c p reply_id reasons;;
            when (2 <? total)%nat (sleep report_pause);;
            report_loop msg ch reply_id reasons total (S idx) rest' (success + 1)
        end
  end.

Definition reportcmd (msg : message) : M unit :=
  reply <- call (get_reply_message msg);;
  match reply with
  | None => call (answer msg report_need_reply)
  | Some reply =>
      let '(args, silent) := _extract_silent (get_args msg) in
      let reasons := _parse_reasons args in
      ch <- call (get_chat msg);;
      accounts <- _refresh_accounts false;;
      success <- report_loop msg ch (msg_id reply) reasons (List.length accounts)
                   1 accounts 0;;
      if silent then suppress (call (delete msg))
      else call (answer msg
                   (report_done success (List.length accounts) (map snd reasons)))
  end.

(** [label_map.get(i, str(i + 1))] of [joincmd]. *)
Definition join_label (selected : option string) (i : nat) : string :=
  match selected, i with
  | Some a, O => a
  | _, _ => str (Z.of_nat i + 1)
  end.

(** [for i, acc in enumerate(selected_accounts)] of [joincmd]. *)
Fixpoint join_loop (msg : message) (ch : chat) (silent : bool)
  (selected : option string) (total : nat)
  (i : nat) (rest : list account) (ok : nat) : M nat :=
  match rest with
  | [] => ret ok
  | acc :: rest' =>
      joined <- _ensure_in_chat (acc_client acc) ch (acc_user acc);;
      ok' <- (if joined then ret (ok + 1)%nat
              else
                when (negb silent)
                  (call (answer msg (join_fail (join_label selected i))));;
                ret ok);;
      when (2 <? total)%nat (sleep join_pause);;
      join_loop msg ch silent selected total (S i) rest' ok'
  end.

Definition joincmd (msg : message) : M unit :=
  let '(args, silent) := _extract_silent (get_args msg) in
  accounts <- _refresh_accounts false;;
  match accounts with
  | [] => call (answer msg no_accounts)
  | _ =>
      ch <- call (get_chat msg);;
      let finish (selected : option string) (selected_accounts : list account) :=
        ok <- join_loop msg ch silent selected (List.length selected_accounts)
                0 selected_accounts 0;;
        if silent then suppress (call (delete msg))
        else call (answer msg (join_ok ok (List.length selected_accounts))) in
      match args with
      | [] => finish None accounts
      | a :: _ =>
          idx <- lift (_resolve_account a accounts);;
          match idx with
          | None => call (answer msg (say_not_found_selector a))
          | Some idx =>
              match nth_error accounts idx with
              | None => raise IndexError
              | Some acc => finish (Some a) [acc]
              end
          end
      end
  end.

(** [for i in range(count)] of [spamacccmd], from iteration [i] on, [n]
    iterations left. *)
Fixpoint spam_loop (n : nat) (i : nat) (target_accounts : list account)
  (to : Z) (text : string) (reply_to : option Z) (count : Z) : M unit :=
  match n with
  | O => ret tt
  | S n' =>
      let len := List.length target_accounts in
      if Nat.eqb len 0 then raise ZeroDivisionError
      else
        match nth_error target_accounts (i mod len) with
        | None => raise IndexError
        | Some acc =>
            suppress (call (send_message (acc_client acc) to text reply_to));;
            when (1 <? len)%nat (sleep spam_pause);;
            when ((3 <? count)%Z && Nat.eqb (i mod len) (len - 1))
              (sleep spam_round_pause);;
            spam_loop n' (S i) target_accounts to text reply_to count
        end
  end.

(** The mandatory trailing count of [spamacccmd]; [None] when the last
    argument is not a number. *)
Definition spam_count (args : list string) : outcome (option Z) :=
  if negb (isdigit (List.last args "")) then Return None
  else match int (List.last args "") with
       | Return v => Return (Some (Z.max 1 v))
       | Raise e => Raise e
       end.

Definition spamacccmd (msg : message) : M unit :=
  let '(args, silent) := _extract_silent (get_args msg) in
  if (List.length args <? 2)%nat then call (answer msg spam_usage)
  else
    accounts <- _refresh_accounts false;;
    match accounts with
    | [] => call (answer msg no_accounts)
    | _ =>
        count <- lift (spam_count args);;
        match count with
        | None => call (answer msg spam_bad_count)
        | Some count =>
            let text_parts := List.removelast args in
            '(acc_idx, text_parts) <-
              (if (2 <=? List.length text_parts)%nat then
                 idx <- lift (_resolve_account (List.hd "" text_parts) accounts);;
                 match idx with
                 | Some idx => ret (Some idx, List.tl text_parts)
                 | None => ret (None, text_parts)
                 end
               else ret (None, text_parts));;
            match text_parts with
            | [] => call (answer msg spam_usage)
            | _ =>
                let text := join " " text_parts in
                reply <- call (get_reply_message msg);;
                let reply_to := option_map msg_id reply in
                target_accounts <-
                  match acc_idx with
                  | Some k =>
                      match nth_error accounts k with
                      | Some acc => ret [acc]
                      | None => raise IndexError
                      end
                  | None => ret accounts
                  end;;
                spam_loop (Z.to_nat count) 0 target_accounts (chat_id msg) text
                  reply_to count;;
                if silent then suppress (call (delete msg))
                else
                  sent_from <-
                    match acc_idx with
                    | Some k =>
                        match nth_error accounts k with
                        | Some acc => ret (Some (acc_user acc))
                        | None => raise IndexError
                        end
                    | None => ret None
                    end;;
                  call (answer msg (spam_sent sent_from count))
            end
        end
    end.

End Coroutines.

Definition acct (n : nat) (i : Z) (u : string) : account :=
  Account (Session n) (User (Some i) (Some u)).

(** ** What the statements below speak of *)

(** What the [enumerate] loops compute: [r] is the position of the first
    entry satisfying [p], or nothing when no entry does. *)
Definition first_match (p : account -> bool) (accounts : list account)
  (r : option nat) : Prop :=
  match r with
  | Some i =>
      (exists acc, nth_error accounts i = Some acc /\ p acc = true) /\
      (forall j acc, (j < i)%nat -> nth_error accounts j = Some acc -> p acc = false)
  | None => forall acc, In acc accounts -> p acc = false
  end.

(** The normalisation as the specification words it: lower case, then one
    leading [@] removed. *)
Definition normalize_one_marker (selector : string) : string :=
  match lower selector with
  | String "@" r => r
  | s => s
  end.

(** [m] returns, whatever the state it starts from. *)
Definition never_raises {A} (m : M A) : Prop :=
  forall s, exists a s', m s = (Return a, s').


(** The sessions a refresh enumerates, a missing primary session left out. *)
Definition sessions_of (m : module) : list client :=
  flat_map (fun c => match c with Some c => [c] | None => [] end) (clients_of m).

Definition asked (c : client) : event := Called (get_me c).

(** The roster entry the [i]-th session contributes when the sessions are
    asked one after the other from trace [tr] on: its answer at the time it
    is asked, nothing when it fails. *)
Definition entry_of (env : environment) (tr : list event) (sessions : list client)
  (i : nat) : list account :=
  match nth_error sessions i with
  | Some c =>
      match respond env user (tr ++ map asked (firstn i sessions)) (get_me c) with
      | Return me => [Account c me]
      | Raise _ => []
      end
  | None => []
  end.

(** The roster built by asking [sessions] in turn from trace [tr] on. *)
Definition roster_from (env : environment) (tr : list event)
  (sessions : list client) : list account :=
  flat_map (entry_of env tr sessions) (seq 0 (List.length sessions)).

(** What a refresh that queries the sessions from trace [tr] on returns and
    leaves behind: the new roster, stored as the cache and stamped with the
    time read after the last query. *)
Definition requery (env : environment) (m : module) (tr : list event)
  : outcome (list account) * state :=
  let roster := roster_from env tr (sessions_of m) in
  let tr' := (tr ++ map asked (sessions_of m))%list in
  (Return roster,
   State (Module_ roster (monotonic env tr') (_client m) (allclients m))
         (tr' ++ [Clock])).

(** The cache is served: [force] is off, the cache is not empty and less
    than 60 seconds have passed since it was stamped, by the code's own
    reckoning [time.monotonic() - self._accounts_cache_ts < 60] on floats. *)
Definition cache_is_fresh (env : environment) (force : bool) (s : state) : Prop :=
  force = false /\
  _accounts_cache (self s) <> [] /\
  (monotonic env (trace s) - _accounts_cache_ts (self s) <? 60)%float = true.

(** How many entries of a roster the listing tags as the main account. *)
Definition count_primary (m : module) (roster : list account) : nat :=
  List.length (filter (is_main m) roster).

(** The session a trace entry tries to send a message from. *)
Definition send_attempt (e : event) : list client :=
  match e with
  | Called r =>
      match r with
      | send_message c _ _ _ => [c]
      | _ => []
      end
  | _ => []
  end.

Definition senders (tr : list event) : list client := flat_map send_attempt tr.

(** What one iteration of the loop of [spamacccmd] adds to the trace. *)
Definition spam_step (accounts : list account) (to : Z) (text : string)
  (reply_to : option Z) (count : Z) (k : nat) : list event :=
  let len := List.length accounts in
  match nth_error accounts (k mod len) with
  | Some acc => [Called (send_message (acc_client acc) to text reply_to)]
  | None => []
  end
  ++ (if (1 <? len)%nat then [Slept spam_pause] else [])
  ++ (if (3 <? count)%Z && Nat.eqb (k mod len) (len - 1)
      then [Slept spam_round_pause] else []).

(** ** Environments to run the coroutines in *)

Definition default_answer {T} (r : request T) : T :=
  match r in request T return T with
  | get_me (Session n) => User (Some (Z.of_nat n)) None
  | get_permissions _ _ => tt
  | get_input_entity _ ch => InputPeer (chat_key ch)
  | send_message _ _ _ _ => tt
  | JoinChannelRequest _ _ => tt
  | ImportChatInviteRequest _ _ => tt
  | ExportChatInviteRequest _ _ => Some "https://t.me/+AbCd"
  | InviteToChannelRequest _ _ _ => tt
  | ReportRequest _ _ _ _ _ => tt
  | answer _ _ => tt
  | delete _ => tt
  | get_reply_message m => Some (Message 7 (chat_id m) [])
  | get_chat m => Chat (chat_id m) None
  end.

(** A clock that advances by one second per event. *)
Fixpoint ticks (n : nat) : float :=
  match n with
  | O => 0%float
  | S n' => (ticks n' + 1)%float
  end.

(** The environment in which exactly the requests selected by [fails] raise;
    its clock counts the events so far. *)
Definition failing (fails : forall T, request T -> bool) : environment :=
  Environment
    (fun T _ r => if fails T r then Raise (RemoteError 1) else Return (default_answer r))
    (fun tr => ticks (List.length tr)).

Definition all_fine : environment := failing (fun _ _ => false).

Definition all_failing : environment := failing (fun _ _ => true).

Definition get_me_fails_for (n : nat) : environment :=
  failing (fun _ r => match r with
                      | get_me (Session k) => Nat.eqb k n
                      | _ => false
                      end).

Definition report_fails_for (n : nat) : environment :=
  failing (fun _ r => match r with
                      | ReportRequest (Session k) _ _ _ _ => Nat.eqb k n
                      | _ => false
                      end).

Definition send_fails_for (n : nat) : environment :=
  failing (fun _ r => match r with
                      | send_message (Session k) _ _ _ => Nat.eqb k n
                      | _ => false
                      end).

Definition entity_fails_for (n : nat) : environment :=
  failing (fun _ r => match r with
                      | get_input_entity (Session k) _ => Nat.eqb k n
                      | _ => false
                      end).

Definition permissions_fail_for (n : nat) : environment :=
  failing (fun _ r => match r with
                      | get_permissions (Session k) _ => Nat.eqb k n
                      | get_input_entity _ _ => true
                      | _ => false
                      end).

(** The answers a trace ends with, and the sessions that tried to report. *)
Definition report_attempt (e : event) : list client :=
  match e with
  | Called r =>
      match r with
      | ReportRequest c _ _ _ _ => [c]
      | _ => []
      end
  | _ => []
  end.

Definition reporters (tr : list event) : list client := flat_map report_attempt tr.

Definition answer_of (e : event) : list reply :=
  match e with
  | Called r =>
      match r with
      | answer _ text => [text]
      | _ => []
      end
  | _ => []
  end.

Definition answers (tr : list event) : list reply := flat_map answer_of tr.

Definition fresh_module (main : nat) (sessions : list nat) : module :=
  Module_ [] 0%float (Some (Session main)) (Some (map Session sessions)).

Definition start (m : module) : state := State m [].

(** ** What the further properties speak of *)

(** [n] full stops. *)
Fixpoint dots (n : nat) : string :=
  match n with
  | O => EmptyString
  | S n' => String "." (dots n')
  end.

Definition has_user_id (acc : account) : Prop := id (acc_user acc) <> None.

(** From a state whose module is [m0], the coroutine [m] leaves the module's
    attributes alone and adds to the trace only events satisfying [P],
    whether it returns or raises. *)
Definition frames {A} (m0 : module) (P : event -> Prop) (m : M A) : Prop :=
  forall s, self s = m0 ->
    exists o evs, m s = (o, State m0 (trace s ++ evs)) /\ Forall P evs.

(** The requests [_ensure_in_chat] may make for the client [c] and the
    chat [ch] when the module is [m]. *)
Definition ensure_request (m : module) (c : client) (ch : chat) (u : user)
  (e : event) : Prop :=
  match e with
  | Called r =>
      match r with
      | get_permissions c' ch' => ch' = ch /\ (c' = c \/ _client m = Some c')
      | JoinChannelRequest c' channel =>
          c' = c /\
          (chat_username ch = Some channel \/
           (has_char "/" channel = false /\ has_char "+" channel = false))
      | ImportChatInviteRequest c' hash =>
          c' = c /\ has_char "/" hash = false /\ has_char "+" hash = false
      | get_input_entity c' ch' => _client m = Some c' /\ ch' = ch
      | ExportChatInviteRequest c' _ => _client m = Some c'
      | InviteToChannelRequest c' ch' users =>
          _client m = Some c' /\ c' <> c /\ ch' = ch /\ users = [u]
      | _ => False
      end
  | _ => False
  end.

(** The pauses of a trace. *)
Definition pause_of (e : event) : list Q :=
  match e with
  | Slept d => [d]
  | _ => []
  end.

Definition pauses (tr : list event) : list Q := flat_map pause_of tr.

Definition succeeded {T} (o : outcome T) : bool :=
  match o with
  | Return _ => true
  | Raise _ => false
  end.

(** The requests of one account's reports, one per reason. *)
Definition report_requests (c : client) (p : peer) (reply_id : Z)
  (reasons : list (reason * string)) : list event :=
  map (fun rn => Called (ReportRequest c p [reply_id] (fst rn) (snd rn))) reasons.

(** An answer telling that account number [k], one of [n] accounts numbered
    from [idx], is not in the chat. *)
Definition skipped_notice (idx n : nat) (a : reply) : Prop :=
  exists k, a = report_not_in_chat k /\ (idx <= k < idx + n)%nat.

Definition is_join_fail (a : reply) : Prop := exists label, a = join_fail label.

(** An event of a refresh: a reading of the clock, or [get_me] asked of one
    of the sessions. *)
Definition refresh_event (sessions : list client) (e : event) : Prop :=
  e = Clock \/ exists c, In c sessions /\ e = asked c.

(** The coroutine [m] adds to the trace only events satisfying [P], whether
    it returns or raises. *)
Definition emits {A} (P : event -> Prop) (m : M A) : Prop :=
  forall s, exists o s' evs,
    m s = (o, s') /\ trace s' = (trace s ++ evs)%list /\ Forall P evs.

(** The kinds of events: calls on the triggering message, identity queries,
    clock readings, membership requests, report requests, sends, pauses. *)
Inductive kind : Type :=
| Host | Identity | Time | Membership | Report | Send | Pause.

Definition kind_of (e : event) : kind :=
  match e with
  | Called r =>
      match r with
      | get_me _ => Identity
      | get_permissions _ _ => Membership
      | get_input_entity _ _ => Membership
      | send_message _ _ _ _ => Send
      | JoinChannelRequest _ _ => Membership
      | ImportChatInviteRequest _ _ => Membership
      | ExportChatInviteRequest _ _ => Membership
      | InviteToChannelRequest _ _ _ => Membership
      | ReportRequest _ _ _ _ _ => Report
      | answer _ _ => Host
      | delete _ => Host
      | get_reply_message _ => Host
      | get_chat _ => Host
      end
  | Slept _ => Pause
  | Clock => Time
  end.

(** The event concerns the triggering message [msg]: a call on a message is
    on [msg], a send goes to the chat of [msg], a pause lasts one of
    [durations]. *)
Definition about (msg : message) (durations : list Q) (e : event) : Prop :=
  match e with
  | Called r =>
      match r with
      | answer m _ => m = msg
      | delete m => m = msg
      | get_reply_message m => m = msg
      | get_chat m => m = msg
      | send_message _ to _ _ => to = chat_id msg
      | _ => True
      end
  | Slept d => In d durations
  | Clock => True
  end.

Definition within (kinds : list kind) (msg : message) (durations : list Q)
  (e : event) : Prop :=
  In (kind_of e) kinds /\ about msg durations e.

(** The sessions from which [m] tries to send satisfy [S], whether it
    returns or raises. *)
Definition sends {A} (S : list client -> Prop) (m : M A) : Prop :=
  forall s, exists o s' evs,
    m s = (o, s') /\ trace s' = (trace s ++ evs)%list /\ S (senders evs).

Definition no_send (e : event) : Prop := send_attempt e = [].

(** The environment in which every request succeeds and the clock always
    reads [t]. *)
Definition clock_reads (t : float) : environment :=
  Environment (fun T _ r => Return (default_answer r)) (fun _ => t).

(** Whether the send the event stands for, made after the trace [tr], was
    answered without an exception; [true] for every other event. *)
Definition send_ok (env : environment) (tr : list event) (e : event) : bool :=
  match e with
  | Called r =>
      match r with
      | send_message c to text reply_to =>
          succeeded (respond env unit tr (send_message c to text reply_to))
      | _ => true
      end
  | _ => true
  end.

(** Every send among the events [evs], which follow the trace [tr], was
    answered without an exception. *)
Fixpoint all_sent (env : environment) (tr : list event) (evs : list event) : bool :=
  match evs with
  | [] => true
  | e :: rest => send_ok env tr e && all_sent env (tr ++ [e]) rest
  end.

(** [spamacccmd], run from the state [s] with the words [words] before
    the count, gets as far as its loop: there is a word, the roster is not
    empty, a selector is read without an exception and so is the reply. *)
Definition spam_reaches_loop (env : environment) (msg : message) (s : state)
  (words : list string) : Prop :=
  words <> [] /\
  exists roster s1 reply,
    _refresh_accounts env false s = (Return roster, s1) /\
    roster <> [] /\
    ((2 <= List.length words)%nat ->
     exists found, _resolve_account (List.hd "" words) roster = Return found) /\
    respond env (option message) (trace s1) (get_reply_message msg) = Return reply.

(** [saycmd], run from the state [s] with the words [words] before the
    count, gets as far as its loop, which sends from [target]: there is a
    selector and a text, the selector names the account of [target], and the
    reply is read without an exception. *)
Definition say_reaches_loop (env : environment) (msg : message) (s : state)
  (words : list string) (target : client) : Prop :=
  exists acc_selector w ws roster s1 idx acc reply,
    words = acc_selector :: w :: ws /\
    truthy (strip (join " " (w :: ws))) = true /\
    _refresh_accounts env false s = (Return roster, s1) /\
    _resolve_account acc_selector roster = Return (Some idx) /\
    nth_error roster idx = Some acc /\
    acc_client acc = target /\
    respond env (option message) (trace s1) (get_reply_message msg) = Return reply.

(** * Proofs *)

Local Open Scope list_scope.

Example resolve_scenario :
  let roster := [acct 0 1001 "Europe"; acct 1 1002 "Asia"; acct 2 1003 "Africa"] in
  _resolve_account "2" roster = Return (Some 1%nat) /\
  _resolve_account "asia" roster = Return (Some 1%nat) /\
  _resolve_account "@ASIA" roster = Return (Some 1%nat) /\
  _resolve_account "1003" roster = Return (Some 2%nat) /\
  _resolve_account "999999" roster = Return None /\
  _resolve_account "--5" roster = Raise ValueError /\
  _resolve_account "-5" roster = Return None /\
  str 12 = "12" /\ str 0 = "0" /\ str (-7) = "-7".
Proof. vm_compute. repeat split. Qed.

(** ** Facts about the string builtins *)

Ltac each_char c :=
  destruct c as [[] [] [] [] [] [] [] []]; vm_compute; try reflexivity; try discriminate.

Lemma decimal_is_digit c : is_decimal c = true -> is_digit_char c = true.
Proof. unfold is_digit_char. intros ->. reflexivity. Qed.

Lemma digit_not_space c : is_digit_char c = true -> int_space c = false.
Proof. each_char c. Qed.

Lemma digit_not_minus c : is_digit_char c = true -> has_char c "-" = false.
Proof. each_char c. Qed.

Lemma lower_char_idem c : lower_char (lower_char c) = lower_char c.
Proof. each_char c. Qed.

Lemma lower_char_digit c : is_digit_char (lower_char c) = is_digit_char c.
Proof. each_char c. Qed.

Lemma lower_char_minus c : has_char (lower_char c) "-" = has_char c "-".
Proof. each_char c. Qed.

Lemma all_chars_impl (p q : ascii -> bool) s :
  (forall c, p c = true -> q c = true) ->
  all_chars p s = true -> all_chars q s = true.
Proof.
  intros Hpq. induction s as [|c r IH]; simpl; [reflexivity|].
  intros H. apply andb_true_iff in H as [Hc Hr].
  rewrite (Hpq _ Hc), (IH Hr). reflexivity.
Qed.

Lemma skip_left_id p s :
  all_chars (fun c => negb (p c)) s = true -> skip_left p s = s.
Proof.
  destruct s as [|c r]; simpl; [reflexivity|].
  intros H. apply andb_true_iff in H as [Hc _].
  apply negb_true_iff in Hc. rewrite Hc. reflexivity.
Qed.

Lemma skip_right_id p s :
  all_chars (fun c => negb (p c)) s = true -> skip_right p s = s.
Proof.
  induction s as [|c r IH]; simpl; [reflexivity|].
  intros H. apply andb_true_iff in H as [Hc Hr].
  apply negb_true_iff in Hc. rewrite (IH Hr), Hc.
  destruct r; reflexivity.
Qed.

Lemma digits_no_space s :
  all_chars is_digit_char s = true ->
  all_chars (fun c => negb (int_space c)) s = true.
Proof.
  apply all_chars_impl. intros c H. now rewrite (digit_not_space _ H).
Qed.

Lemma lstrip_digits s : isdigit s = true -> lstrip "-" s = s.
Proof.
  unfold isdigit. destruct s as [|c r]; [reflexivity|].
  cbn [truthy all_chars lstrip andb]. intros H.
  apply andb_true_iff in H as [Hc _].
  now rewrite (digit_not_minus _ Hc).
Qed.

Lemma lower_lstrip_minus s : lstrip "-" (lower s) = lower (lstrip "-" s).
Proof.
  induction s as [|c r IH]; [reflexivity|].
  cbn [lower lstrip]. rewrite lower_char_minus.
  destruct (has_char c "-"); [exact IH | reflexivity].
Qed.

Lemma isdigit_lower s : isdigit (lower s) = isdigit s.
Proof.
  unfold isdigit. f_equal; [destruct s; reflexivity|].
  induction s as [|c r IH]; [reflexivity|].
  cbn [lower all_chars]. now rewrite lower_char_digit, IH.
Qed.

Lemma lower_idem s : lower (lower s) = lower s.
Proof.
  induction s as [|c r IH]; [reflexivity|].
  cbn [lower]. now rewrite lower_char_idem, IH.
Qed.

Lemma truthy_lower s : truthy (lower s) = truthy s.
Proof. destruct s; reflexivity. Qed.

(** [int] on a string of digit characters needs no trimming. *)
Lemma int_body s :
  all_chars is_digit_char s = true ->
  skip_right int_space (skip_left int_space s) = s.
Proof.
  intros H. apply digits_no_space in H.
  now rewrite (skip_left_id _ _ H), (skip_right_id _ _ H).
Qed.

Lemma int_decimal s :
  all_chars is_decimal s = true ->
  int s = match int_digits 0 false s with
          | Some v => Return v
          | None => Raise ValueError
          end.
Proof.
  intros H. unfold int.
  rewrite int_body by (revert H; apply all_chars_impl, decimal_is_digit).
  destruct s as [|c r]; [reflexivity|].
  cbn [all_chars] in H. apply andb_true_iff in H as [Hc _].
  revert Hc. each_char c.
Qed.

(** ** [int (str k) = k] *)

Lemma uint_string_decimal d : all_chars is_decimal (NilEmpty.string_of_uint d) = true.
Proof. induction d; simpl; auto. Qed.

Lemma int_digits_start acc s :
  truthy s = true -> all_chars is_decimal s = true ->
  int_digits acc false s = int_digits acc true s.
Proof.
  destruct s as [|c r]; [discriminate|].
  intros _ H. cbn [all_chars] in H. apply andb_true_iff in H as [Hc _].
  cbn [int_digits]. now rewrite Hc.
Qed.

Lemma int_digits_uint d acc :
  int_digits acc true (NilEmpty.string_of_uint d)
  = Some (Z.of_N (Unsigned.of_lu (rev d)) + acc * 10 ^ Z.of_N (Unsigned.usize d)).
Proof.
  revert acc.
  induction d; intros acc;
    [ cbn [NilEmpty.string_of_uint int_digits rev revapp Unsigned.of_lu
           Unsigned.usize]; f_equal; change (Z.of_N 0) with 0; lia | .. ];
    unfold rev; cbn [revapp]; rewrite Unsigned.of_lu_revapp;
    cbn [NilEmpty.string_of_uint int_digits];
    (replace (is_decimal _) with true by reflexivity); cbv iota;
    rewrite IHd; f_equal;
    cbn [Unsigned.usize Unsigned.of_lu];
    rewrite N2Z.inj_succ, Z.pow_succ_r by lia;
    rewrite N2Z.inj_add, N2Z.inj_mul, N2Z.inj_pow;
    unfold digit_value;
    repeat match goal with
      | |- context [Z.of_N ?n] =>
          lazymatch n with
          | context [d] => fail
          | _ => let v := eval vm_compute in (Z.of_N n) in
                 progress change (Z.of_N n) with v
          end
      end;
    ring.
Qed.

Lemma int_str (k : Z) : 0 <= k -> int (str k) = Return k.
Proof.
  intros Hk. unfold str.
  assert (Hd : exists d, Z.to_int k = Pos d /\ d <> Nil).
  { destruct k as [|p|p]; [| |lia].
    - exists (D0 Nil). split; [reflexivity | discriminate].
    - exists (Pos.to_uint p). split; [reflexivity | apply Unsigned.to_uint_nonnil]. }
  destruct Hd as (d & Hd & Hnil).
  pose proof (DecimalZ.of_to k) as Hround. rewrite Hd in *.
  assert (Hs : NilZero.string_of_int (Pos d) = NilEmpty.string_of_uint d)
    by (destruct d; [congruence | reflexivity ..]).
  rewrite Hs, int_decimal by apply uint_string_decimal.
  rewrite int_digits_start, int_digits_uint;
    [ | destruct d; [congruence | reflexivity ..] | apply uint_string_decimal ].
  f_equal. rewrite <- Hround. cbn [Z.of_int]. unfold Z.of_uint.
  rewrite Unsigned.of_uint_alt. lia.
Qed.

Lemma isdigit_str (k : Z) : 0 <= k -> isdigit (str k) = true.
Proof.
  intros Hk. unfold str, isdigit.
  destruct k as [|p|p]; [reflexivity | | lia].
  cbn [Z.to_int NilZero.string_of_int].
  pose proof (Unsigned.to_uint_nonnil p) as Hnil.
  assert (Hs : NilZero.string_of_uint (Pos.to_uint p)
               = NilEmpty.string_of_uint (Pos.to_uint p))
    by (destruct (Pos.to_uint p); [congruence | reflexivity ..]).
  rewrite Hs. apply andb_true_iff. split.
  - destruct (Pos.to_uint p); [congruence | reflexivity ..].
  - generalize (uint_string_decimal (Pos.to_uint p)).
    apply all_chars_impl, decimal_is_digit.
Qed.

(** ** Selector resolution *)

Lemma first_index_from p accounts : forall i,
  match first_index p i accounts with
  | Some k => (i <= k)%nat /\ first_match p accounts (Some (k - i)%nat)
  | None => first_match p accounts None
  end.
Proof.
  induction accounts as [|a rest IH]; intros i; cbn [first_index].
  - intros acc [].
  - destruct (p a) eqn:Ha.
    + split; [lia|]. rewrite Nat.sub_diag. split.
      * exists a. now split.
      * intros j acc Hj. lia.
    + specialize (IH (S i)). destruct (first_index p (S i) rest) as [k|].
      * destruct IH as [Hk [(acc & Hacc & Hp) Hbefore]]. split; [lia|].
        replace (k - i)%nat with (S (k - S i)) by lia. split.
        -- exists acc. now split.
        -- intros [|j] acc' Hj Hnth; cbn in Hnth.
           ++ now inversion Hnth; subst.
           ++ apply (Hbefore j); [lia | exact Hnth].
      * intros acc [<- | Hin]; [exact Ha | now apply IH].
Qed.

Lemma first_index_spec p accounts :
  first_match p accounts (first_index p 0 accounts).
Proof.
  generalize (first_index_from p accounts 0%nat).
  destruct (first_index p 0 accounts) as [k|]; [|trivial].
  rewrite Nat.sub_0_r. now intros [_ H].
Qed.

Lemma isdigit_lstrip_minus s : isdigit s = true -> isdigit (lstrip "-" s) = true.
Proof. intros H. now rewrite (lstrip_digits _ H). Qed.

(** A selector that is not a number, even with its leading minus signs
    removed, is resolved by handle only. *)
Lemma resolve_handle_only selector accounts :
  truthy selector = true -> isdigit (lstrip "-" selector) = false ->
  _resolve_account selector accounts
  = Return (by_username (lstrip "@" (lower selector)) accounts).
Proof.
  intros Ht Hd. unfold _resolve_account, by_user_id.
  rewrite Ht, Hd. cbn [negb].
  destruct (isdigit selector) eqn:E; [|reflexivity].
  apply isdigit_lstrip_minus in E. congruence.
Qed.

(** C1.  The resolver is not total: a selector made of two minus signs and
    then digits passes the guard [raw.lstrip("-").isdigit()], and [int(raw)]
    raises [ValueError], for every roster. *)
Theorem resolve_raises_on_repeated_sign (digits : string) (accounts : list account) :
  isdigit digits = true ->
  _resolve_account (String "-" (String "-" digits)) accounts = Raise ValueError.
Proof.
  intros H. unfold _resolve_account, by_user_id.
  assert (Hl : lstrip "-" (String "-" (String "-" digits)) = digits)
    by (cbn; now apply lstrip_digits).
  rewrite Hl, H.
  assert (Hbody : int (String "-" (String "-" digits)) = Raise ValueError).
  { unfold int. unfold isdigit in H. apply andb_true_iff in H as [_ H].
    cbn [skip_left]. replace (int_space "-") with false by reflexivity.
    rewrite skip_right_id
      by (cbn [all_chars]; replace (int_space "-") with false by reflexivity;
          now apply digits_no_space).
    reflexivity. }
  rewrite Hbody. reflexivity.
Qed.

Lemma resolve_raises_on_repeated_sign_witness :
  isdigit "5" = true /\
  _resolve_account "--5" [] = Raise ValueError.
Proof.
  split; [reflexivity|].
  apply (resolve_raises_on_repeated_sign "5" []). reflexivity.
Defined.

(** A superscript digit passes [isdigit] as well and [int] rejects it. *)
Example resolve_raises_on_superscript (accounts : list account) :
  _resolve_account (String (ascii_of_N 178) EmptyString) accounts
  = Raise ValueError.
Proof. reflexivity. Qed.

(** C3.  The decimal string of a position [k] of the roster resolves to
    [k - 1], whatever the numeric ids and handles of the entries are. *)
Theorem resolve_position (accounts : list account) (k : nat) :
  (1 <= k <= List.length accounts)%nat ->
  _resolve_account (str (Z.of_nat k)) accounts = Return (Some (k - 1)%nat).
Proof.
  intros Hk. unfold _resolve_account.
  assert (Hd : isdigit (str (Z.of_nat k)) = true) by (apply isdigit_str; lia).
  assert (Ht : truthy (str (Z.of_nat k)) = true)
    by (unfold isdigit in Hd; now apply andb_true_iff in Hd as [Ht _]).
  rewrite Ht, Hd, int_str by lia. cbn [negb].
  replace (Z.leb 1 (Z.of_nat k)) with true by (symmetry; apply Z.leb_le; lia).
  replace (Z.leb (Z.of_nat k) (Z.of_nat (List.length accounts))) with true
    by (symmetry; apply Z.leb_le; lia).
  cbn [andb]. do 2 f_equal. lia.
Qed.

Lemma resolve_position_witness :
  (1 <= 2 <= List.length [acct 0 2 "2"; acct 1 2 "2"; acct 2 2 "2"])%nat /\
  _resolve_account (str 2) [acct 0 2 "2"; acct 1 2 "2"; acct 2 2 "2"]
  = Return (Some 1%nat).
Proof.
  split; [cbn; lia|].
  apply (resolve_position [acct 0 2 "2"; acct 1 2 "2"; acct 2 2 "2"] 2).
  cbn; lia.
Defined.

(** C4, as stated, fails: the code removes every leading [@], so [@@foo]
    finds the entry whose handle is [foo], which is not the selector with
    one [@] removed. *)
Lemma resolve_strips_every_marker :
  let roster := [acct 0 1001 "foo"] in
  normalize_one_marker "@@foo" = "@foo" /\
  first_index (has_username (normalize_one_marker "@@foo")) 0 roster = None /\
  _resolve_account "@@foo" roster = Return (Some 0%nat).
Proof. repeat split. Qed.

(** C4, amended.  A selector that is not a number is normalised by
    lowercasing and removing all its leading [@]; the result is the first
    entry, in roster order, whose non-empty handle lowercased equals the
    normalised selector, or nothing.  Hence a leading [@] and the case of the
    letters do not matter. *)
Theorem resolve_by_handle (selector : string) (accounts : list account) :
  truthy selector = true ->
  isdigit (lstrip "-" selector) = false ->
  (exists r,
     _resolve_account selector accounts = Return r /\
     first_match (has_username (lstrip "@" (lower selector))) accounts r) /\
  _resolve_account (String "@" selector) accounts
  = _resolve_account (lower selector) accounts.
Proof.
  intros Ht Hd. split.
  - eexists. split; [now apply resolve_handle_only|].
    apply first_index_spec.
  - rewrite (resolve_handle_only (String "@" selector)) by easy.
    rewrite (resolve_handle_only (lower selector)).
    + now rewrite lower_idem.
    + now rewrite truthy_lower.
    + now rewrite lower_lstrip_minus, isdigit_lower.
Qed.

Lemma resolve_by_handle_witness :
  let roster := [acct 0 1001 "Europe"; acct 1 1002 "Foo"] in
  truthy "Foo" = true /\
  isdigit (lstrip "-" "Foo") = false /\
  _resolve_account "@Foo" roster = Return (Some 1%nat) /\
  _resolve_account "@Foo" roster = _resolve_account "foo" roster.
Proof.
  split; [reflexivity|]. split; [reflexivity|]. split; [reflexivity|].
  exact (proj2 (resolve_by_handle "Foo"
                  [acct 0 1001 "Europe"; acct 1 1002 "Foo"] eq_refl eq_refl)).
Defined.

(** ** Reasoning about the coroutines *)

Lemma never_raises_ret {A} (a : A) : never_raises (ret a).
Proof. intros s. now exists a, s. Qed.

Lemma never_raises_bind {A B} (m : M A) (k : A -> M B) :
  never_raises m -> (forall a, never_raises (k a)) -> never_raises (bind m k).
Proof.
  intros Hm Hk s. destruct (Hm s) as (a & s1 & E).
  destruct (Hk a s1) as (b & s2 & E2).
  exists b, s2. unfold bind. now rewrite E.
Qed.

Lemma never_raises_try {A} (m h : M A) :
  never_raises h -> never_raises (try_except m h).
Proof.
  intros Hh s. unfold try_except.
  destruct (m s) as [[a|e] s1]; [now exists a, s1 | apply Hh].
Qed.

Lemma never_raises_get_self : never_raises get_self.
Proof. intros s. now exists (self s), s. Qed.

Lemma never_raises_sleep d : never_raises (sleep d).
Proof. intros s. now eexists _, _. Qed.

Lemma never_raises_when b m : never_raises m -> never_raises (when b m).
Proof. destruct b; [trivial | intros _; apply never_raises_ret]. Qed.

Lemma never_raises_if {A} (b : bool) (m1 m2 : M A) :
  never_raises m1 -> never_raises m2 -> never_raises (if b then m1 else m2).
Proof. now destruct b. Qed.

Lemma never_raises_suppress m : never_raises (suppress m).
Proof. apply never_raises_try, never_raises_ret. Qed.

Lemma never_raises_attempt m : never_raises (attempt m).
Proof. apply never_raises_try, never_raises_ret. Qed.

Create HintDb py.

#[local] Hint Resolve never_raises_ret never_raises_try never_raises_get_self
  never_raises_sleep never_raises_when never_raises_suppress
  never_raises_attempt : py.

Ltac returns :=
  repeat first
    [ progress eauto with py
    | apply never_raises_bind; [|intros ?]
    | apply never_raises_if
    | match goal with
      | |- never_raises (match ?x with _ => _ end) => destruct x
      end ].

(** ** The chat-membership guarantor *)

Lemma export_invite_link_returns env ch : never_raises (_export_invite_link env ch).
Proof. unfold _export_invite_link. returns. Qed.

Lemma join_with_link_returns env c link : never_raises (_join_with_link env c link).
Proof. unfold _join_with_link. returns. Qed.

#[local] Hint Resolve export_invite_link_returns join_with_link_returns : py.

Lemma ensure_in_chat_returns env c ch u : never_raises (_ensure_in_chat env c ch u).
Proof. unfold _ensure_in_chat. returns. Qed.



(** ** The roster cache *)

Lemma flat_map_seq_shift {A} (f : nat -> list A) n : forall a,
  flat_map f (seq (S a) n) = flat_map (fun i => f (S i)) (seq a n).
Proof.
  induction n as [|n IH]; intros a; [reflexivity|].
  cbn [seq flat_map]. now rewrite IH.
Qed.

Lemma entry_of_next env tr c rest i :
  entry_of env tr (c :: rest) (S i) = entry_of env (tr ++ [asked c]) rest i.
Proof.
  unfold entry_of. cbn [nth_error firstn map].
  now rewrite <- app_assoc.
Qed.

Lemma roster_from_cons env tr c rest :
  roster_from env tr (c :: rest)
  = match respond env user tr (get_me c) with
    | Return me => [Account c me]
    | Raise _ => []
    end ++ roster_from env (tr ++ [asked c]) rest.
Proof.
  unfold roster_from. cbn [List.length seq flat_map].
  rewrite flat_map_seq_shift. f_equal.
  - unfold entry_of. cbn [nth_error firstn map]. now rewrite app_nil_r.
  - apply flat_map_ext. intros i. apply entry_of_next.
Qed.

Lemma query_sessions env sessions : forall accounts s,
  query_clients env (map Some sessions) accounts s
  = (Return (accounts ++ roster_from env (trace s) sessions),
     State (self s) (trace s ++ map asked sessions)).
Proof.
  induction sessions as [|c rest IH]; intros accounts [m tr].
  - cbn. now rewrite !app_nil_r.
  - rewrite roster_from_cons. cbn [map query_clients].
    unfold bind at 1, try_except, bind, call, ret. cbn [self trace].
    destruct (respond env user tr (get_me c)) as [me|e];
      rewrite IH; cbn [self trace app];
      now rewrite <- ?app_assoc.
Qed.

Lemma query_clients_of env m accounts s :
  query_clients env (clients_of m) accounts s
  = (Return (accounts ++ roster_from env (trace s) (sessions_of m)),
     State (self s) (trace s ++ map asked (sessions_of m))).
Proof.
  assert (Hsome : forall l,
    flat_map (fun c : option client => match c with Some c => [c] | None => [] end)
      (map Some l) = l)
    by (induction l as [|c l IH]; [reflexivity | cbn; now rewrite IH]).
  unfold sessions_of, clients_of.
  destruct (allclients m) as [[|c l]|].
  2: now rewrite Hsome, <- query_sessions.
  all: destruct (_client m) as [c|];
    [ change [Some c] with (map Some [c]); now rewrite Hsome, <- query_sessions
    | destruct s; cbn; now rewrite !app_nil_r ].
Qed.

Lemma refresh_requery env force s :
  (if negb force && negb (Nat.eqb (List.length (_accounts_cache (self s))) 0)
   then (monotonic env (trace s) - _accounts_cache_ts (self s) <? 60)%float
   else false) = false ->
  _refresh_accounts env force s
  = requery env (self s)
      (trace s ++ if negb force
                     && negb (Nat.eqb (List.length (_accounts_cache (self s))) 0)
                  then [Clock] else []).
Proof.
  intros H. destruct s as [m tr]. cbn [self trace] in *.
  unfold _refresh_accounts, requery.
  unfold bind at 1. unfold get_self. cbn [self trace].
  destruct (negb force && negb (Nat.eqb (List.length (_accounts_cache m)) 0)).
  - unfold bind at 1. unfold bind at 1. unfold now at 1, ret at 1.
    cbn [self trace]. rewrite H.
    unfold bind at 1. rewrite query_clients_of. cbn [self trace app].
    reflexivity.
  - unfold bind at 1. unfold ret at 1.
    unfold bind at 1. rewrite query_clients_of. cbn [self trace app].
    now rewrite app_nil_r.
Qed.

Lemma refresh_forced env s :
  _refresh_accounts env true s = requery env (self s) (trace s).
Proof.
  rewrite refresh_requery by reflexivity.
  cbn [negb andb]. now rewrite app_nil_r.
Qed.

Lemma nonempty_length {A} (l : list A) :
  negb (Nat.eqb (List.length l) 0) = true <-> l <> [].
Proof. destruct l; cbn; split; congruence. Qed.

(** C5.  [_refresh_accounts] serves the cache, after only reading the clock,
    exactly when [force] is off, the cache is not empty and less than 60
    seconds have passed since its stamp, the age being the float difference
    of the clock and the stamp as the code takes it.  Otherwise every
    session is asked [get_me] once, in enumeration order; those that fail
    are left out; the roster replaces the cache and is stamped with the time
    read after the last query.  With [force] on, the sessions are always
    asked. *)
Theorem refresh_accounts_spec (env : environment) (force : bool) (s : state) :
  (cache_is_fresh env force s ->
   _refresh_accounts env force s
   = (Return (_accounts_cache (self s)), State (self s) (trace s ++ [Clock]))) /\
  (~ cache_is_fresh env force s ->
   exists consulted,
     (consulted = [] \/ consulted = [Clock]) /\
     _refresh_accounts env force s = requery env (self s) (trace s ++ consulted)) /\
  (force = true ->
   _refresh_accounts env force s = requery env (self s) (trace s)).
Proof.
  unfold cache_is_fresh. repeat split.
  - intros (Hforce & Hcache & Hage). subst force.
    apply nonempty_length in Hcache.
    destruct s as [m tr]. cbn [self trace] in *.
    unfold _refresh_accounts, bind, get_self, now, ret. cbn [self trace negb andb].
    rewrite Hcache. cbn [self trace]. now rewrite Hage.
  - intros Hstale.
    exists (if negb force && negb (Nat.eqb (List.length (_accounts_cache (self s))) 0)
            then [Clock] else []).
    split; [destruct (_ && _); auto|].
    apply refresh_requery.
    destruct force; [reflexivity|]. cbn [negb andb].
    destruct (negb (Nat.eqb (List.length (_accounts_cache (self s))) 0)) eqn:Hcache;
      [|reflexivity].
    destruct (_ <? 60)%float eqn:Hage; [|reflexivity].
    exfalso. apply Hstale. repeat split.
    now apply nonempty_length.
  - intros ->. apply refresh_forced.
Qed.

Lemma refresh_accounts_spec_witness :
  let cached := State (Module_ [acct 1 42 "asia"] 0%float (Some (Session 0))
                         (Some [Session 0; Session 1])) [] in
  cache_is_fresh (get_me_fails_for 0) false cached /\
  _refresh_accounts (get_me_fails_for 0) false cached
  = (Return [acct 1 42 "asia"], State (self cached) [Clock]) /\
  ~ cache_is_fresh (get_me_fails_for 0) true cached /\
  _refresh_accounts (get_me_fails_for 0) true cached
  = (Return [Account (Session 1) (User (Some 1) None)],
     State (Module_ [Account (Session 1) (User (Some 1) None)] 2%float
              (Some (Session 0)) (Some [Session 0; Session 1]))
           [asked (Session 0); asked (Session 1); Clock]).
Proof.
  cbv zeta.
  assert (Hfresh : cache_is_fresh (get_me_fails_for 0) false
    (State (Module_ [acct 1 42 "asia"] 0%float (Some (Session 0))
              (Some [Session 0; Session 1])) []))
    by (split; [reflexivity | split; [discriminate | reflexivity]]).
  assert (Hforced : ~ cache_is_fresh (get_me_fails_for 0) true
    (State (Module_ [acct 1 42 "asia"] 0%float (Some (Session 0))
              (Some [Session 0; Session 1])) []))
    by (intros [H _]; discriminate H).
  split; [exact Hfresh|]. split.
  - exact (proj1 (refresh_accounts_spec _ _ _) Hfresh).
  - split; [exact Hforced|].
    exact (proj2 (proj2 (refresh_accounts_spec (get_me_fails_for 0) true
      (State (Module_ [acct 1 42 "asia"] 0%float (Some (Session 0))
                (Some [Session 0; Session 1])) []))) eq_refl).
Defined.

(** The age is a difference of floats, so it is rounded: a cache stamped at
    2^-70 s is asked again when the clock reads 60 s, the difference being
    rounded to 60. *)
Example refresh_rounds_the_age :
  let stamped := State (Module_ [acct 0 1 "a"] 0x1p-70%float (Some (Session 0))
                          (Some [Session 0])) [] in
  (monotonic (clock_reads 60) (trace stamped) - _accounts_cache_ts (self stamped) <? 60)%float
  = false /\
  trace (snd (_refresh_accounts (clock_reads 60) false stamped))
  = [Clock; asked (Session 0); Clock].
Proof. cbv zeta. split; vm_compute; reflexivity. Qed.

(** ** The primary account *)

Lemma client_eqb_eq a b : client_eqb a b = true <-> a = b.
Proof.
  destruct a as [x], b as [y]. cbn. rewrite Nat.eqb_eq.
  split; [now intros -> | now intros [= ->]].
Qed.

Lemma roster_clients_in env sessions : forall tr acc,
  In acc (roster_from env tr sessions) -> In (acc_client acc) sessions.
Proof.
  induction sessions as [|c rest IH]; intros tr acc; [intros []|].
  rewrite roster_from_cons. intros H. apply in_app_or in H as [H|H].
  - destruct (respond env user tr (get_me c)); [|destruct H].
    destruct H as [<-|[]]. now left.
  - right. eapply IH, H.
Qed.

Lemma roster_clients_nodup env sessions : forall tr,
  NoDup sessions -> NoDup (map acc_client (roster_from env tr sessions)).
Proof.
  induction sessions as [|c rest IH]; intros tr Hnd; [constructor|].
  inversion Hnd as [|? ? Hnotin Hrest]; subst.
  rewrite roster_from_cons, map_app.
  destruct (respond env user tr (get_me c)); cbn [map app]; [|now apply IH].
  constructor; [|now apply IH].
  intros Hin. apply in_map_iff in Hin as (acc & Hc & Hin).
  apply roster_clients_in in Hin. cbn in Hc. rewrite Hc in Hin. contradiction.
Qed.

Lemma at_most_one (c : client) (roster : list account) :
  NoDup (map acc_client roster) ->
  (List.length (filter (fun acc => client_eqb (acc_client acc) c) roster) <= 1)%nat.
Proof.
  induction roster as [|a rest IH]; cbn [map filter]; [cbn; lia|].
  intros Hnd. inversion Hnd as [|? ? Hnotin Hrest]; subst.
  destruct (client_eqb (acc_client a) c) eqn:E; [|now apply IH].
  apply client_eqb_eq in E. subst c. cbn [List.length].
  assert (Hnone : filter (fun acc => client_eqb (acc_client acc) (acc_client a)) rest = []).
  { destruct (filter _ rest) as [|b l] eqn:F; [reflexivity|].
    assert (Hb : In b (filter (fun acc => client_eqb (acc_client acc) (acc_client a)) rest))
      by (rewrite F; now left).
    apply filter_In in Hb as [Hb Heq]. apply client_eqb_eq in Heq.
    exfalso. apply Hnotin. rewrite <- Heq. now apply in_map. }
  now rewrite Hnone.
Qed.

Lemma count_primary_le_1 m roster :
  NoDup (map acc_client roster) -> (count_primary m roster <= 1)%nat.
Proof.
  intros Hnd. unfold count_primary, is_main.
  destruct (_client m) as [c|]; [now apply at_most_one|].
  induction roster as [|a rest IH]; cbn; [lia|].
  apply IH. now inversion Hnd.
Qed.

Lemma count_primary_pos m roster :
  (0 < count_primary m roster)%nat <->
  exists main me, _client m = Some main /\ In (Account main me) roster.
Proof.
  unfold count_primary. split.
  - destruct (filter (is_main m) roster) as [|a l] eqn:F; [cbn; lia|].
    intros _.
    assert (Ha : In a (filter (is_main m) roster)) by (rewrite F; now left).
    apply filter_In in Ha as [Hin Hmain]. unfold is_main in Hmain.
    destruct (_client m) as [c|]; [|discriminate].
    apply client_eqb_eq in Hmain. destruct a as [ac au]. cbn in Hmain. subst ac.
    now exists c, au.
  - intros (main & me & Hc & Hin).
    assert (Ha : In (Account main me) (filter (is_main m) roster)).
    { apply filter_In. split; [exact Hin|]. unfold is_main. rewrite Hc.
      now apply client_eqb_eq. }
    destruct (filter (is_main m) roster); [destruct Ha | cbn; lia].
Qed.

(** C8, as stated, fails: the primary session's own [get_me] can fail, and
    the roster is then not empty and has no entry tagged as main. *)
Lemma refresh_can_lose_the_primary :
  exists roster s',
    _refresh_accounts (get_me_fails_for 0) true (start (fresh_module 0 [0; 1]%nat))
    = (Return roster, s') /\
    roster <> [] /\
    count_primary (self s') roster = 0%nat.
Proof.
  eexists _, _. split; [reflexivity|]. split; [discriminate | reflexivity].
Qed.

(** C8, amended.  When the sessions are enumerated without repetition, the
    roster a refresh builds has at most one entry tagged as main, and exactly
    one precisely when the coordinator's own session is among its entries,
    that is, when it was enumerated and answered [get_me]; when the roster is
    built from the coordinator's own session alone ([allclients] missing), a
    non-empty roster has exactly one. *)
Theorem refresh_marks_at_most_one_primary (env : environment) (s : state) :
  NoDup (sessions_of (self s)) ->
  exists roster s',
    _refresh_accounts env true s = (Return roster, s') /\
    (count_primary (self s') roster <= 1)%nat /\
    (count_primary (self s') roster = 1%nat <->
     exists main me, _client (self s) = Some main /\ In (Account main me) roster) /\
    (allclients (self s) = None -> roster <> [] ->
     count_primary (self s') roster = 1%nat).
Proof.
  intros Hnd.
  rewrite refresh_forced. unfold requery.
  set (roster := roster_from env (trace s) (sessions_of (self s))).
  eexists roster, _. split; [reflexivity|]. cbn [self].
  set (m' := Module_ roster _ _ _).
  assert (Hle : (count_primary m' roster <= 1)%nat)
    by (apply count_primary_le_1, roster_clients_nodup, Hnd).
  pose proof (count_primary_pos m' roster) as Hpos. cbn [_client m'] in Hpos.
  split; [exact Hle|]. split; [|].
  - rewrite <- Hpos. lia.
  - intros Hall Hne.
    assert (Hpos' : (0 < count_primary m' roster)%nat); [|lia].
    apply Hpos. subst roster.
    unfold sessions_of, clients_of in *. rewrite Hall in *. cbn [flat_map] in *.
    destruct (_client (self s)) as [main|]; [|now destruct Hne].
    change ([main] ++ []) with [main] in *.
    rewrite roster_from_cons in *. unfold roster_from in *.
    cbn [List.length seq flat_map] in *. rewrite app_nil_r in *.
    destruct (respond env user (trace s) (get_me main)) as [me|]; [|now destruct Hne].
    exists main, me. split; [reflexivity | now left].
Qed.

Lemma refresh_marks_at_most_one_primary_witness :
  NoDup (sessions_of (self (start (fresh_module 0 [0; 1; 2]%nat)))) /\
  exists roster s',
    _refresh_accounts (get_me_fails_for 1) true (start (fresh_module 0 [0; 1; 2]%nat))
    = (Return roster, s') /\
    (count_primary (self s') roster <= 1)%nat.
Proof.
  assert (Hnd : NoDup (sessions_of (self (start (fresh_module 0 [0; 1; 2]%nat))))).
  { cbn. repeat constructor; cbn; intuition discriminate. }
  split; [exact Hnd|].
  destruct (refresh_marks_at_most_one_primary (get_me_fails_for 1)
              (start (fresh_module 0 [0; 1; 2]%nat)) Hnd)
    as (roster & s' & Hrun & Hle & _).
  now exists roster, s'.
Defined.

(** ** The interleaved repeat dispatcher *)

Lemma suppress_call env (r : request unit) s :
  suppress (call env r) s = (Return tt, State (self s) (trace s ++ [Called r])).
Proof.
  unfold suppress, try_except, call, ret.
  now destruct (respond env unit (trace s) r) as [[]|e].
Qed.

Lemma bind_return {A B} (m : M A) (k : A -> M B) s a s' :
  m s = (Return a, s') -> bind m k s = k a s'.
Proof. unfold bind. now intros ->. Qed.

Lemma when_sleep b d s :
  when b (sleep d) s
  = (Return tt, State (self s) (trace s ++ if b then [Slept d] else [])).
Proof. destruct b, s; cbn; [reflexivity | now rewrite app_nil_r]. Qed.

Lemma nth_error_mod (accounts : list account) k :
  accounts <> [] ->
  exists acc, nth_error accounts (k mod List.length accounts) = Some acc.
Proof.
  intros Hne.
  assert (Hlen : List.length accounts <> 0%nat) by (destruct accounts; cbn; congruence).
  destruct (nth_error accounts (k mod List.length accounts)) as [acc|] eqn:E;
    [now exists acc|].
  apply nth_error_None in E.
  pose proof (Nat.mod_upper_bound k _ Hlen). lia.
Qed.

Lemma spam_loop_run env accounts to text reply_to count :
  accounts <> [] ->
  forall n i s,
    spam_loop env n i accounts to text reply_to count s
    = (Return tt,
       State (self s)
         (trace s ++ flat_map (spam_step accounts to text reply_to count) (seq i n))).
Proof.
  intros Hne.
  assert (Hlen : Nat.eqb (List.length accounts) 0 = false)
    by (destruct accounts; [congruence | reflexivity]).
  induction n as [|n IH]; intros i [m tr].
  - cbn. now rewrite app_nil_r.
  - cbn [spam_loop seq flat_map]. rewrite Hlen.
    unfold spam_step at 1.
    destruct (nth_error_mod accounts i Hne) as [acc ->].
    erewrite bind_return by apply suppress_call.
    erewrite bind_return by apply when_sleep.
    erewrite bind_return by apply when_sleep.
    rewrite IH. cbn [self trace]. now rewrite <- !app_assoc.
Qed.

Lemma senders_app a b : senders (a ++ b) = senders a ++ senders b.
Proof. apply flat_map_app. Qed.

Lemma senders_spam_step accounts to text reply_to count k acc :
  nth_error accounts (k mod List.length accounts) = Some acc ->
  senders (spam_step accounts to text reply_to count k) = [acc_client acc].
Proof.
  intros E. unfold spam_step. rewrite E, !senders_app.
  destruct (1 <? _)%nat, (_ && _); reflexivity.
Qed.

Lemma senders_round_robin accounts to text reply_to count :
  accounts <> [] ->
  forall n i k, (k < n)%nat ->
    nth_error (senders (flat_map (spam_step accounts to text reply_to count) (seq i n))) k
    = option_map acc_client (nth_error accounts ((i + k) mod List.length accounts)).
Proof.
  intros Hne. induction n as [|n IH]; intros i k Hk; [lia|].
  cbn [seq flat_map]. rewrite senders_app.
  destruct (nth_error_mod accounts i Hne) as [acc E].
  rewrite (senders_spam_step _ _ _ _ _ _ _ E).
  destruct k as [|k].
  - rewrite Nat.add_0_r, E. reflexivity.
  - change (nth_error ([acc_client acc] ++ ?l) (S k)) with (nth_error l k).
    rewrite IH by lia. now rewrite Nat.add_succ_comm.
Qed.

Lemma senders_count accounts to text reply_to count :
  accounts <> [] ->
  forall n i,
    List.length (senders (flat_map (spam_step accounts to text reply_to count) (seq i n))) = n.
Proof.
  intros Hne. induction n as [|n IH]; intros i; [reflexivity|].
  cbn [seq flat_map]. rewrite senders_app.
  destruct (nth_error_mod accounts i Hne) as [acc E].
  rewrite (senders_spam_step _ _ _ _ _ _ _ E). cbn. now rewrite IH.
Qed.

(** C6.  The loop of [spamacccmd] over a non-empty account list returns after
    [n] send attempts, whatever the sends answer, and the [k]-th attempt
    (from 0) is made by the account at position [k mod len(accounts)]. *)
Theorem spam_round_robin (env : environment) (accounts : list account) (to : Z)
  (text : string) (reply_to : option Z) (count : Z) (n : nat) (s : state) :
  accounts <> [] ->
  exists events,
    spam_loop env n 0 accounts to text reply_to count s
    = (Return tt, State (self s) (trace s ++ events)) /\
    List.length (senders events) = n /\
    forall k, (k < n)%nat ->
      nth_error (senders events) k
      = option_map acc_client (nth_error accounts (k mod List.length accounts)).
Proof.
  intros Hne.
  exists (flat_map (spam_step accounts to text reply_to count) (seq 0 n)).
  split; [now apply spam_loop_run|]. split.
  - now apply senders_count.
  - intros k Hk. now rewrite senders_round_robin.
Qed.

Lemma spam_round_robin_witness :
  let a := acct 0 100 "a" in
  let b := acct 1 101 "b" in
  [a; b] <> [] /\
  exists events,
    spam_loop (send_fails_for 1) 5 0 [a; b] 10 "hi" None 5 (start (fresh_module 0 [0; 1]%nat))
    = (Return tt, State (fresh_module 0 [0; 1]%nat) ([] ++ events)) /\
    senders events = [Session 0; Session 1; Session 0; Session 1; Session 0].
Proof.
  cbv zeta. split; [discriminate|].
  destruct (spam_round_robin (send_fails_for 1) [acct 0 100 "a"; acct 1 101 "b"]
              10 "hi" None 5 5 (start (fresh_module 0 [0; 1]%nat)))
    as (events & Hrun & Hlen & Hk); [discriminate|].
  exists events. split; [exact Hrun|].
  pose proof (Hk 0%nat ltac:(lia)) as H0. pose proof (Hk 1%nat ltac:(lia)) as H1.
  pose proof (Hk 2%nat ltac:(lia)) as H2. pose proof (Hk 3%nat ltac:(lia)) as H3.
  pose proof (Hk 4%nat ltac:(lia)) as H4.
  destruct (senders events) as [|c0 [|c1 [|c2 [|c3 [|c4 [|c5 l]]]]]];
    try discriminate Hlen.
  cbn in H0, H1, H2, H3, H4. congruence.
Defined.

(** C9, as stated, fails: the pause added after a full round is 0.1 s, which
    is shorter than the 0.15 s pause between sends. *)
Lemma round_pause_is_not_longer :
  let a := acct 0 100 "a" in
  let b := acct 1 101 "b" in
  let send c := Called (send_message (Session c) 10 "hi" None) in
  snd (spam_loop all_fine 4 0 [a; b] 10 "hi" None 4 (start (fresh_module 0 [0; 1]%nat)))
  = State (fresh_module 0 [0; 1]%nat)
      [send 0%nat; Slept spam_pause;
       send 1%nat; Slept spam_pause; Slept spam_round_pause;
       send 0%nat; Slept spam_pause;
       send 1%nat; Slept spam_pause; Slept spam_round_pause] /\
  ~ (spam_pause < spam_round_pause)%Q.
Proof. split; [reflexivity | discriminate]. Qed.

(** C9, amended.  Each iteration of the loop of [spamacccmd] adds to the
    trace what [spam_step] says: the send attempt, then a pause of 0.15 s
    when more than one account takes part, then, when the count exceeds 3 and
    the iteration completes a round of all accounts, one more pause of 0.1 s,
    which is shorter than the pause between sends. *)
Theorem spam_pacing (env : environment) (accounts : list account) (to : Z)
  (text : string) (reply_to : option Z) (count : Z) (s : state) :
  accounts <> [] ->
  spam_loop env (Z.to_nat count) 0 accounts to text reply_to count s
  = (Return tt,
     State (self s)
       (trace s ++ flat_map (spam_step accounts to text reply_to count)
                     (seq 0 (Z.to_nat count)))) /\
  (forall k acc,
     nth_error accounts (k mod List.length accounts) = Some acc ->
     spam_step accounts to text reply_to count k
     = [Called (send_message (acc_client acc) to text reply_to)]
       ++ (if (1 <? List.length accounts)%nat then [Slept (15 # 100)] else [])
       ++ (if (3 <? count)%Z
              && Nat.eqb (k mod List.length accounts) (List.length accounts - 1)
           then [Slept (1 # 10)] else [])) /\
  (1 # 10 < 15 # 100)%Q.
Proof.
  intros Hne. split; [now apply spam_loop_run|]. split; [|reflexivity].
  intros k acc E. unfold spam_step. now rewrite E.
Qed.

Lemma spam_pacing_witness :
  let a := acct 0 100 "a" in
  let b := acct 1 101 "b" in
  let send c := Called (send_message (Session c) 10 "hi" None) in
  [a; b] <> [] /\
  spam_loop (send_fails_for 0) (Z.to_nat 4) 0 [a; b] 10 "hi" None 4
    (start (fresh_module 0 [0; 1]%nat))
  = (Return tt,
     State (fresh_module 0 [0; 1]%nat)
       [send 0%nat; Slept (15 # 100);
        send 1%nat; Slept (15 # 100); Slept (1 # 10);
        send 0%nat; Slept (15 # 100);
        send 1%nat; Slept (15 # 100); Slept (1 # 10)]).
Proof.
  cbv zeta. split; [discriminate|].
  exact (proj1 (spam_pacing (send_fails_for 0) [acct 0 100 "a"; acct 1 101 "b"]
                  10 "hi" None 4 (start (fresh_module 0 [0; 1]%nat))
                  ltac:(discriminate))).
Defined.

(** ** Repeat counts *)

Lemma digit_value_nonneg c : is_decimal c = true -> 0 <= digit_value c.
Proof. each_char c; intros _ H; discriminate H. Qed.

Lemma int_digits_decimal s : all_chars is_decimal s = true ->
  forall acc, 0 <= acc -> exists v, int_digits acc true s = Some v /\ 0 <= v.
Proof.
  induction s as [|c r IH]; intros H acc Hacc; [now exists acc|].
  cbn [all_chars] in H. apply andb_true_iff in H as [Hc Hr].
  cbn [int_digits]. rewrite Hc. apply (IH Hr).
  pose proof (digit_value_nonneg c Hc). lia.
Qed.

(** A non-empty string of decimal digits is a number for [isdigit] and for
    [int]. *)
Lemma int_of_decimal tok :
  truthy tok = true -> all_chars is_decimal tok = true ->
  isdigit tok = true /\ exists v, int tok = Return v /\ 0 <= v.
Proof.
  intros Ht Hd. split.
  - unfold isdigit. rewrite Ht. cbn [andb].
    revert Hd. apply all_chars_impl, decimal_is_digit.
  - rewrite int_decimal, int_digits_start by assumption.
    destruct (int_digits_decimal tok Hd 0) as (v & -> & Hv); [lia|].
    now exists v.
Qed.

Lemma say_repeat_last word args tok :
  say_repeat (word :: args ++ [tok])
  = if isdigit tok
    then match int tok with
         | Return v => Return (Z.max 1 v, word :: args)
         | Raise e => Raise e
         end
    else Return (1, word :: args ++ [tok]).
Proof.
  unfold say_repeat.
  change (word :: args ++ [tok]) with ((word :: args) ++ [tok]).
  rewrite last_last, removelast_last, length_app.
  replace (1 <? _)%nat with true; [reflexivity|].
  symmetry. apply Nat.ltb_lt. cbn. lia.
Qed.

Lemma spam_count_last args tok :
  spam_count (args ++ [tok])
  = if isdigit tok
    then match int tok with
         | Return v => Return (Some (Z.max 1 v))
         | Raise e => Raise e
         end
    else Return None.
Proof. unfold spam_count. rewrite last_last. now destruct (isdigit tok). Qed.

(** ** The report and join broadcasts *)

Lemma ensure_in_chat_member env c ch u s :
  respond env unit (trace s) (get_permissions c ch) = Return tt ->
  _ensure_in_chat env c ch u s
  = (Return true, State (self s) (trace s ++ [Called (get_permissions c ch)])).
Proof.
  intros H. unfold _ensure_in_chat, attempt, try_except, bind, call, ret.
  now rewrite H.
Qed.

Lemma report_reasons_returns env c p reply_id reasons :
  never_raises (report_reasons env c p reply_id reasons).
Proof.
  induction reasons as [|[r name] rest IH]; cbn [report_reasons]; returns.
Qed.

(** C2.  The loop of [reportcmd] counts an account whose report requests all
    raise as a success: in an environment where every account is in the chat
    and its peer is found, the loop returns, having gone through every
    account, with all of them counted, whatever the report requests
    themselves answer. *)
Theorem report_counts_failed_reports (env : environment) (msg : message)
  (ch : chat) (reply_id : Z) (reasons : list (reason * string)) (total : nat)
  (accounts : list account) :
  (forall tr c, respond env unit tr (get_permissions c ch) = Return tt) ->
  (forall tr c, exists p, respond env peer tr (get_input_entity c ch) = Return p) ->
  forall idx success s, exists s',
    report_loop env msg ch reply_id reasons total idx accounts success s
    = (Return (success + List.length accounts)%nat, s').
Proof.
  intros Hperm Hpeer.
  induction accounts as [|acc rest IH]; intros idx success s.
  - exists s. cbn. now rewrite Nat.add_0_r.
  - cbn [report_loop].
    erewrite bind_return by (apply ensure_in_chat_member, Hperm).
    cbn [negb].
    set (s1 := State (self s) _).
    destruct (Hpeer (trace s1) (acc_client acc)) as [p Hp].
    erewrite bind_return
      by (unfold try_except, bind, call, ret; rewrite Hp; reflexivity).
    destruct (report_reasons_returns env (acc_client acc) p reply_id reasons
                (State (self s1) (trace s1 ++ [Called (get_input_entity (acc_client acc) ch)])))
      as ([] & s2 & Hreasons).
    erewrite bind_return by exact Hreasons.
    erewrite bind_return by apply when_sleep.
    destruct (IH (S idx) (success + 1)%nat
                (State (self s2)
                   (trace s2 ++ if (2 <? total)%nat then [Slept report_pause] else [])))
      as [s' Hrest].
    exists s'. rewrite Hrest. cbn [List.length]. do 2 f_equal. lia.
Qed.

Lemma report_counts_failed_reports_witness :
  let roster := [acct 0 100 "a"; acct 1 101 "b"; acct 2 102 "c"] in
  let msg := Message 5 10 [] in
  let ch := Chat 10 None in
  let reasons := [(Spam, "Spam"); (Other, "Other")] in
  (forall tr c, respond (report_fails_for 1) unit tr (get_permissions c ch) = Return tt) /\
  (forall tr c, exists p,
      respond (report_fails_for 1) peer tr (get_input_entity c ch) = Return p) /\
  fst (report_loop (report_fails_for 1) msg ch 7 reasons 3 1 roster 0
         (start (fresh_module 0 [0; 1; 2]%nat)))
  = Return 3%nat.
Proof.
  cbv zeta.
  assert (Hperm : forall tr c,
    respond (report_fails_for 1) unit tr (get_permissions c (Chat 10 None)) = Return tt)
    by reflexivity.
  assert (Hpeer : forall tr c, exists p,
    respond (report_fails_for 1) peer tr (get_input_entity c (Chat 10 None)) = Return p)
    by (intros tr c; eexists; reflexivity).
  split; [exact Hperm|]. split; [exact Hpeer|].
  destruct (report_counts_failed_reports (report_fails_for 1) (Message 5 10 [])
              (Chat 10 None) 7 [(Spam, "Spam"); (Other, "Other")] 3
              [acct 0 100 "a"; acct 1 101 "b"; acct 2 102 "c"] Hperm Hpeer
              1%nat 0%nat (start (fresh_module 0 [0; 1; 2]%nat)))
    as [s' ->].
  reflexivity.
Defined.

(** [reportcmd] over three accounts when both report requests of the second
    account raise: the summary still says 3 of 3. *)
Example report_broadcast_with_failed_report :
  let s := snd (reportcmd (report_fails_for 1) (Message 5 10 [])
                  (start (fresh_module 0 [0; 1; 2]%nat))) in
  answers (trace s) = [report_done 3 3 ["Spam"; "Other"]] /\
  reporters (trace s)
  = [Session 0; Session 0; Session 1; Session 1; Session 2; Session 2].
Proof. vm_compute. split; reflexivity. Qed.

(** [reportcmd] when the peer of the second account cannot be resolved: that
    account is skipped, the other two report, the summary says 2 of 3. *)
Example report_broadcast_with_unresolved_peer :
  let s := snd (reportcmd (entity_fails_for 1) (Message 5 10 [])
                  (start (fresh_module 0 [0; 1; 2]%nat))) in
  answers (trace s) = [report_not_in_chat 2; report_done 2 3 ["Spam"; "Other"]] /\
  reporters (trace s) = [Session 0; Session 0; Session 2; Session 2].
Proof. vm_compute. split; reflexivity. Qed.

(** [joincmd] when the second account cannot get into the chat: it is
    reported and the other two are counted. *)
Example join_broadcast_with_failed_join :
  let s := snd (joincmd (permissions_fail_for 1) (Message 5 10 [])
                  (start (fresh_module 0 [0; 1; 2]%nat))) in
  answers (trace s) = [join_fail "2"; join_ok 2 3].
Proof. vm_compute. reflexivity. Qed.

(** ** The commands, run *)

Example spam_with_count_zero :
  let s := snd (spamacccmd all_fine (Message 5 10 ["hi"; "0"])
                  (start (fresh_module 0 [0; 1]%nat))) in
  senders (trace s) = [Session 0] /\ answers (trace s) = [spam_sent None 1].
Proof. vm_compute. split; reflexivity. Qed.

Example spam_five_over_two :
  let s := snd (spamacccmd (send_fails_for 1) (Message 5 10 ["hi"; "5"; "-s"])
                  (start (fresh_module 0 [0; 1]%nat))) in
  senders (trace s) = [Session 0; Session 1; Session 0; Session 1; Session 0] /\
  answers (trace s) = [].
Proof. vm_compute. split; reflexivity. Qed.

Example say_with_count_zero :
  let s := snd (saycmd all_fine (Message 5 10 ["2"; "hello"; "0"])
                  (start (fresh_module 0 [0; 1]%nat))) in
  senders (trace s) = [Session 1] /\ answers (trace s) = [say_sent 2 1].
Proof. vm_compute. split; reflexivity. Qed.

Example say_with_repeated_sign :
  fst (saycmd all_fine (Message 5 10 ["--5"; "hello"])
         (start (fresh_module 0 [0; 1]%nat)))
  = Raise ValueError.
Proof. vm_compute. reflexivity. Qed.

Example list_tags_the_main_account :
  let s := snd (listacccmd all_fine (Message 5 10 [])
                  (start (fresh_module 1 [0; 1]%nat))) in
  answers (trace s)
  = [list_header [Row 1 (User (Some 0) None) 0 false;
                  Row 2 (User (Some 1) None) 1 true]].
Proof. vm_compute. reflexivity. Qed.

(** * Further properties of the module *)

(** ** More on selector resolution *)

Lemma first_index_lt p accounts i :
  first_index p 0 accounts = Some i -> (i < List.length accounts)%nat.
Proof.
  intros H. generalize (first_index_spec p accounts). rewrite H.
  intros [(acc & Hnth & _) _]. apply nth_error_Some. congruence.
Qed.

Lemma by_user_id_cases raw sel accounts :
  by_user_id raw sel accounts
  = if isdigit (lstrip "-" raw) then
      match int raw with
      | Raise e => Raise e
      | Return uid =>
          Return (match first_index (has_id uid) 0 accounts with
                  | Some i => Some i
                  | None => by_username sel accounts
                  end)
      end
    else Return (by_username sel accounts).
Proof.
  unfold by_user_id. destruct (isdigit _); [|reflexivity].
  destruct (int raw); [|reflexivity].
  now destruct (first_index _ 0 accounts).
Qed.

Lemma resolve_some_lt selector accounts i :
  _resolve_account selector accounts = Return (Some i) ->
  (i < List.length accounts)%nat.
Proof.
  unfold _resolve_account. destruct (negb (truthy selector)); [discriminate|].
  assert (Hid : by_user_id selector (lstrip "@" (lower selector)) accounts
                = Return (Some i) -> (i < List.length accounts)%nat).
  { rewrite by_user_id_cases. unfold by_username.
    destruct (isdigit (lstrip "-" selector)).
    - destruct (int selector) as [uid|]; [|discriminate].
      destruct (first_index (has_id uid) 0 accounts) as [j|] eqn:E.
      + intros [= <-]. eapply first_index_lt, E.
      + intros [= H]. eapply first_index_lt, H.
    - intros [= H]. eapply first_index_lt, H. }
  destruct (isdigit selector); [|exact Hid].
  destruct (int selector) as [idx|]; [|discriminate].
  destruct (Z.leb 1 idx && Z.leb idx (Z.of_nat (List.length accounts))) eqn:E;
    [|exact Hid].
  apply andb_true_iff in E as [H1 H2].
  apply Z.leb_le in H1, H2. intros [= <-]. lia.
Qed.

(** A position found by [_resolve_account] is a valid index of the roster,
    so [accounts[idx]] in the callers cannot raise [IndexError]. *)
Theorem resolve_found_in_bounds (selector : string) (accounts : list account)
  (i : nat) :
  _resolve_account selector accounts = Return (Some i) ->
  (i < List.length accounts)%nat.
Proof. apply resolve_some_lt. Qed.

Lemma resolve_found_in_bounds_witness :
  _resolve_account "asia" [acct 0 1 "Europe"; acct 1 2 "Asia"] = Return (Some 1%nat) /\
  (1 < List.length [acct 0 1 "Europe"; acct 1 2 "Asia"])%nat.
Proof.
  split; [reflexivity|].
  exact (resolve_found_in_bounds "asia" [acct 0 1 "Europe"; acct 1 2 "Asia"] 1 eq_refl).
Defined.

(** [_resolve_account] raises exactly when the selector, its leading minus
    signs removed, consists of digit characters and [int] rejects the
    selector itself; the exception is then the one [int] raises. *)
Theorem resolve_raises_iff (selector : string) (accounts : list account) (e : exn) :
  _resolve_account selector accounts = Raise e <->
  isdigit (lstrip "-" selector) = true /\ int selector = Raise e.
Proof.
  unfold _resolve_account. rewrite by_user_id_cases.
  destruct (truthy selector) eqn:Ht; cbn [negb].
  - destruct (isdigit selector) eqn:Hd.
    + rewrite (isdigit_lstrip_minus _ Hd).
      destruct (int selector) as [idx|e'].
      * destruct (_ && _); split; try discriminate; now intros [_ H].
      * split; [now intros [= ->] | now intros [_ [= ->]]].
    + destruct (isdigit (lstrip "-" selector)).
      * destruct (int selector); split; try discriminate;
          [now intros [_ H] | now intros [= ->] | now intros [_ [= ->]]].
      * split; [discriminate | now intros [H _]].
  - destruct selector; [|discriminate]. split; [discriminate | now intros [H _]].
Qed.

Lemma resolve_raises_iff_witness :
  isdigit (lstrip "-" "---12") = true /\ int "---12" = Raise ValueError /\
  _resolve_account "---12" [acct 0 12 "a"] = Raise ValueError.
Proof.
  split; [reflexivity|]. split; [reflexivity|].
  exact (proj2 (resolve_raises_iff "---12" [acct 0 12 "a"] ValueError)
           (conj eq_refl eq_refl)).
Defined.

Lemma decimal_lower c : is_decimal c = true -> lower_char c = c.
Proof. each_char c. Qed.

Lemma decimal_not_marker c : is_decimal c = true -> has_char c "@" = false.
Proof. each_char c. Qed.

Lemma lower_decimal s : all_chars is_decimal s = true -> lower s = s.
Proof.
  induction s as [|c r IH]; [reflexivity|].
  cbn [all_chars lower]. intros H. apply andb_true_iff in H as [Hc Hr].
  now rewrite (decimal_lower _ Hc), (IH Hr).
Qed.

Lemma pos_string p :
  let ds := NilEmpty.string_of_uint (Pos.to_uint p) in
  NilZero.string_of_uint (Pos.to_uint p) = ds /\
  truthy ds = true /\ all_chars is_decimal ds = true /\
  int_digits 0 false ds = Some (Z.pos p).
Proof.
  cbv zeta. pose proof (Unsigned.to_uint_nonnil p) as Hnil.
  pose proof (Unsigned.of_to p) as Hround.
  rewrite Unsigned.of_uint_alt in Hround.
  assert (Ht : truthy (NilEmpty.string_of_uint (Pos.to_uint p)) = true)
    by (destruct (Pos.to_uint p); [congruence | reflexivity ..]).
  split; [destruct (Pos.to_uint p); [congruence | reflexivity ..]|].
  split; [exact Ht|]. split; [apply uint_string_decimal|].
  rewrite int_digits_start, int_digits_uint, Hround
    by (exact Ht || apply uint_string_decimal).
  f_equal; try lia.
Qed.

Lemma str_neg p :
  str (Z.neg p) = String "-" (NilEmpty.string_of_uint (Pos.to_uint p)).
Proof.
  unfold str. cbn [Z.to_int NilZero.string_of_int].
  now rewrite (proj1 (pos_string p)).
Qed.

Lemma int_str_neg p : int (str (Z.neg p)) = Return (Z.neg p).
Proof.
  rewrite str_neg. destruct (pos_string p) as (_ & Ht & Hd & Hv).
  unfold int. cbn [skip_left]. replace (int_space "-") with false by reflexivity.
  rewrite skip_right_id.
  - now rewrite Hv.
  - cbn [all_chars]. replace (int_space "-") with false by reflexivity.
    apply digits_no_space. revert Hd. apply all_chars_impl, decimal_is_digit.
Qed.

(** How the decimal string of an integer resolves. *)
Lemma resolve_str (x : Z) (accounts : list account) :
  _resolve_account (str x) accounts
  = Return (if Z.leb 1 x && Z.leb x (Z.of_nat (List.length accounts))
            then Some (Z.to_nat (x - 1))
            else match first_index (has_id x) 0 accounts with
                 | Some i => Some i
                 | None => by_username (str x) accounts
                 end).
Proof.
  unfold _resolve_account. rewrite by_user_id_cases.
  destruct x as [|p|p].
  - reflexivity.
  - assert (H0 : 0 <= Z.pos p) by lia.
    pose proof (isdigit_str _ H0) as Hd. rewrite Hd, (isdigit_lstrip_minus _ Hd).
    rewrite (int_str _ H0).
    assert (Ht : truthy (str (Z.pos p)) = true)
      by (unfold isdigit in Hd; now apply andb_true_iff in Hd as [Ht _]).
    rewrite Ht. cbn [negb].
    destruct (pos_string p) as (Hs & _ & Hdec & _).
    assert (Hsel : lstrip "@" (lower (str (Z.pos p))) = str (Z.pos p)).
    { unfold str. cbn [Z.to_int NilZero.string_of_int]. rewrite Hs.
      rewrite (lower_decimal _ Hdec).
      destruct (NilEmpty.string_of_uint (Pos.to_uint p)) as [|c r]; [reflexivity|].
      cbn [all_chars] in Hdec. apply andb_true_iff in Hdec as [Hc _].
      cbn [lstrip]. now rewrite (decimal_not_marker _ Hc). }
    rewrite Hsel. now destruct (_ && _).
  - rewrite int_str_neg, str_neg.
    destruct (pos_string p) as (_ & Ht & Hdec & _).
    assert (Hdig : isdigit (NilEmpty.string_of_uint (Pos.to_uint p)) = true).
    { unfold isdigit. rewrite Ht. cbn [andb].
      revert Hdec. apply all_chars_impl, decimal_is_digit. }
    cbn [truthy negb lstrip lower].
    replace (has_char "-" "-") with true by reflexivity.
    replace (lower_char "-") with "-"%char by reflexivity.
    replace (has_char "-" "@") with false by reflexivity.
    rewrite (lstrip_digits _ Hdig), Hdig, (lower_decimal _ Hdec).
    replace (isdigit (String "-" _)) with false by reflexivity.
    reflexivity.
Qed.

(** An integer that is not a position of the roster resolves, through its
    decimal string, to the first entry whose user id it is; negative ids
    included. *)
Theorem resolve_by_numeric_id (x : Z) (accounts : list account) (i : nat) :
  ~ (1 <= x <= Z.of_nat (List.length accounts)) ->
  first_index (has_id x) 0 accounts = Some i ->
  _resolve_account (str x) accounts = Return (Some i) /\
  first_match (has_id x) accounts (Some i).
Proof.
  intros Hpos Hid. rewrite resolve_str, Hid. split.
  - destruct (Z.leb 1 x && Z.leb x (Z.of_nat (List.length accounts))) eqn:E;
      [|reflexivity].
    apply andb_true_iff in E as [H1 H2]. apply Z.leb_le in H1, H2. lia.
  - rewrite <- Hid. apply first_index_spec.
Qed.

Lemma resolve_by_numeric_id_witness :
  let roster := [acct 0 1001 "a"; acct 1 (-1002) "b"; acct 2 (-1002) "c"] in
  ~ (1 <= -1002 <= Z.of_nat (List.length roster)) /\
  first_index (has_id (-1002)) 0 roster = Some 1%nat /\
  _resolve_account "-1002" roster = Return (Some 1%nat).
Proof.
  cbv zeta.
  assert (H : ~ (1 <= -1002 <= Z.of_nat (List.length
             [acct 0 1001 "a"; acct 1 (-1002) "b"; acct 2 (-1002) "c"])))
    by (cbn; lia).
  split; [exact H|]. split; [reflexivity|].
  exact (proj1 (resolve_by_numeric_id (-1002)
                  [acct 0 1001 "a"; acct 1 (-1002) "b"; acct 2 (-1002) "c"] 1
                  H eq_refl)).
Defined.

(** ** The account listing *)

Lemma list_rows_spec m accounts : forall idx,
  match list_rows m idx accounts with
  | Return rows =>
      List.length rows = List.length accounts /\
      forall i acc, nth_error accounts i = Some acc ->
        exists uid, id (acc_user acc) = Some uid /\
          nth_error rows i
          = Some (Row (idx + i) (acc_user acc) uid (is_main m acc))
  | Raise e =>
      e = AttributeError /\ exists acc, In acc accounts /\ id (acc_user acc) = None
  end.
Proof.
  induction accounts as [|a rest IH]; intros idx; cbn [list_rows].
  - split; [reflexivity|]. intros [|i] acc; discriminate.
  - destruct (id (acc_user a)) as [uid|] eqn:Hid.
    + specialize (IH (S idx)). destruct (list_rows m (S idx) rest) as [rows|e].
      * destruct IH as [Hlen Hrows]. split; [cbn; now rewrite Hlen|].
        intros [|i] acc Hnth; cbn in Hnth.
        -- injection Hnth as <-. exists uid. rewrite Nat.add_0_r. now split.
        -- destruct (Hrows i acc Hnth) as (u & Hu & Hr). exists u.
           split; [exact Hu|]. cbn [nth_error]. rewrite Hr.
           now rewrite Nat.add_succ_comm.
      * destruct IH as [-> (acc & Hin & Hnone)]. split; [reflexivity|].
        exists acc. split; [now right | exact Hnone].
    + split; [reflexivity|]. exists a. split; [now left | exact Hid].
Qed.

(** The rows of the listing: when every user has an id there is one row per
    account, in roster order, numbered from 1, carrying the user, its id and
    the main tag of the coordinator's own session; when some user has no id
    the listing raises [AttributeError]. *)
Theorem listing_rows (m : module) (accounts : list account) :
  (Forall has_user_id accounts ->
   exists rows,
     list_rows m 1 accounts = Return rows /\
     List.length rows = List.length accounts /\
     forall i acc, nth_error accounts i = Some acc ->
       exists uid, id (acc_user acc) = Some uid /\
         nth_error rows i = Some (Row (S i) (acc_user acc) uid (is_main m acc))) /\
  (~ Forall has_user_id accounts -> list_rows m 1 accounts = Raise AttributeError).
Proof.
  pose proof (list_rows_spec m accounts 1) as H.
  destruct (list_rows m 1 accounts) as [rows|e].
  - split.
    + intros _. exists rows. split; [reflexivity|]. exact H.
    + intros Hnot. exfalso. apply Hnot. apply Forall_forall. intros acc Hin.
      apply In_nth_error in Hin as [i Hi].
      destruct (proj2 H i acc Hi) as (uid & Hu & _). unfold has_user_id. congruence.
  - destruct H as [-> (acc & Hin & Hnone)]. split; [|reflexivity].
    intros Hall. rewrite Forall_forall in Hall. now destruct (Hall acc Hin).
Qed.

Lemma listing_rows_witness :
  let m := fresh_module 1 [0; 1]%nat in
  Forall has_user_id [acct 0 100 "a"; acct 1 101 "b"] /\
  list_rows m 1 [acct 0 100 "a"; acct 1 101 "b"]
  = Return [Row 1 (User (Some 100) (Some "a")) 100 false;
            Row 2 (User (Some 101) (Some "b")) 101 true] /\
  ~ Forall has_user_id [Account (Session 0) (User None None)] /\
  list_rows m 1 [Account (Session 0) (User None None)] = Raise AttributeError.
Proof.
  cbv zeta.
  assert (Hall : Forall has_user_id [acct 0 100 "a"; acct 1 101 "b"])
    by (repeat constructor; discriminate).
  assert (Hnot : ~ Forall has_user_id [Account (Session 0) (User None None)])
    by (intros H; inversion H as [|? ? Hid _]; now apply Hid).
  split; [exact Hall|]. split; [reflexivity|]. split; [exact Hnot|].
  exact (proj2 (listing_rows (fresh_module 1 [0; 1]%nat)
                  [Account (Session 0) (User None None)]) Hnot).
Defined.

(** The number a row of the listing shows resolves, as a selector, to the
    position of the account the row is about. *)
Theorem listing_number_resolves (m : module) (accounts : list account)
  (rows : list row) (i : nat) (r : row) :
  list_rows m 1 accounts = Return rows ->
  nth_error rows i = Some r ->
  _resolve_account (str (Z.of_nat (row_idx r))) accounts = Return (Some i) /\
  exists acc, nth_error accounts i = Some acc /\ acc_user acc = row_title r.
Proof.
  intros Hrows Hr.
  pose proof (list_rows_spec m accounts 1) as H. rewrite Hrows in H.
  destruct H as [Hlen Hnth].
  assert (Hi : (i < List.length accounts)%nat)
    by (rewrite <- Hlen; apply nth_error_Some; congruence).
  destruct (nth_error accounts i) as [acc|] eqn:Hacc;
    [|apply nth_error_None in Hacc; lia].
  destruct (Hnth i acc Hacc) as (uid & _ & Hrow).
  rewrite Hr in Hrow. injection Hrow as ->. cbn [row_idx row_title].
  split; [|now exists acc].
  rewrite resolve_str.
  replace (Z.leb 1 _ && Z.leb _ _) with true.
  - do 2 f_equal. lia.
  - symmetry. apply andb_true_iff. split; apply Z.leb_le; lia.
Qed.

Lemma listing_number_resolves_witness :
  let roster := [acct 0 2 "a"; acct 1 1 "b"] in
  list_rows (fresh_module 0 [0; 1]%nat) 1 roster
  = Return [Row 1 (User (Some 2) (Some "a")) 2 true;
            Row 2 (User (Some 1) (Some "b")) 1 false] /\
  _resolve_account "2" roster = Return (Some 1%nat).
Proof.
  cbv zeta. split; [reflexivity|].
  exact (proj1 (listing_number_resolves (fresh_module 0 [0; 1]%nat)
                  [acct 0 2 "a"; acct 1 1 "b"] _ 1
                  (Row 2 (User (Some 1) (Some "b")) 1 false) eq_refl eq_refl)).
Defined.

(** ** The silent flag and the report reasons *)

Lemma lower_append a b : lower (a ++ b)%string = (lower a ++ lower b)%string.
Proof. induction a as [|c r IH]; cbn; [reflexivity | now rewrite IH]. Qed.

Lemma lower_dots n : lower (dots n) = dots n.
Proof. induction n as [|n IH]; cbn [dots lower]; [reflexivity | now rewrite IH]. Qed.

Lemma rstrip_dots_only n : rstrip "." (dots n) = "".
Proof. induction n as [|n IH]; cbn [dots rstrip]; [reflexivity | now rewrite IH]. Qed.

Lemma rstrip_dots s n : rstrip "." (s ++ dots n)%string = rstrip "." s.
Proof.
  induction s as [|c r IH]; cbn [append rstrip].
  - apply rstrip_dots_only.
  - now rewrite IH.
Qed.

Lemma extract_silent_last args tok :
  _extract_silent (args ++ [tok])
  = if String.eqb (rstrip "." (lower tok)) "-s" || String.eqb (rstrip "." (lower tok)) "s"
    then (args, true)
    else (args ++ [tok], false).
Proof.
  unfold _extract_silent. rewrite last_last, removelast_last.
  destruct (args ++ [tok]) eqn:E; [now destruct args | reflexivity].
Qed.

(** The silent flag is the last argument only, read without regard to case
    and to full stops after it: [-s], [s], [-S], [S.], ...  It is taken off
    the arguments; any other last argument leaves them as they are. *)
Theorem extract_silent_flag (args : list string) (tok flag : string) (n : nat) :
  (lower flag = "-s" \/ lower flag = "s" ->
   _extract_silent (args ++ [(flag ++ dots n)%string]) = (args, true)) /\
  (rstrip "." (lower tok) <> "-s" -> rstrip "." (lower tok) <> "s" ->
   _extract_silent (args ++ [tok]) = (args ++ [tok], false)).
Proof.
  split.
  - intros H. rewrite extract_silent_last, lower_append, lower_dots, rstrip_dots.
    destruct H as [-> | ->]; reflexivity.
  - intros H1 H2. rewrite extract_silent_last.
    apply String.eqb_neq in H1, H2. now rewrite H1, H2.
Qed.

Lemma extract_silent_flag_witness :
  (lower "-S" = "-s" \/ lower "-S" = "s") /\
  _extract_silent (["1"; "hello"] ++ [("-S" ++ dots 2)%string]) = (["1"; "hello"], true) /\
  rstrip "." (lower "yes") <> "-s" /\ rstrip "." (lower "yes") <> "s" /\
  _extract_silent (["1"] ++ ["yes"]) = (["1"] ++ ["yes"], false).
Proof.
  assert (H : lower "-S" = "-s" \/ lower "-S" = "s") by (left; reflexivity).
  assert (H1 : rstrip "." (lower "yes") <> "-s") by discriminate.
  assert (H2 : rstrip "." (lower "yes") <> "s") by discriminate.
  split; [exact H|]. split.
  - exact (proj1 (extract_silent_flag ["1"; "hello"] "" "-S" 2) H).
  - split; [exact H1|]. split; [exact H2|].
    exact (proj2 (extract_silent_flag ["1"] "yes" "" 0) H1 H2).
Defined.

Lemma reason_map_label key r name :
  _reason_map key = Some (r, name) -> _reason_map (lower name) = Some (r, name).
Proof.
  unfold _reason_map at 1.
  repeat (destruct (String.eqb key _); [now intros [= <- <-]|]).
  discriminate.
Qed.

(** [_parse_reasons] looks at the first argument only, without regard to
    case; it answers one or two reasons, never none; and the label sent with
    each reason names that reason in [_reason_map]. *)
Theorem parse_reasons_spec (a : string) (rest : list string) :
  _parse_reasons (a :: rest) = _parse_reasons [lower a] /\
  (1 <= List.length (_parse_reasons (a :: rest)) <= 2)%nat /\
  forall r name, In (r, name) (_parse_reasons (a :: rest)) ->
    _reason_map (lower name) = Some (r, name).
Proof.
  unfold _parse_reasons. rewrite lower_idem.
  destruct (_reason_map (lower a)) as [[r0 name0]|] eqn:E.
  - split; [reflexivity|]. split; [cbn; lia|].
    intros r name [[= <- <-]|[]]. eapply reason_map_label, E.
  - split; [reflexivity|]. split; [cbn; lia|].
    intros r name [[= <- <-]|[[= <- <-]|[]]]; reflexivity.
Qed.

Lemma parse_reasons_spec_witness :
  _parse_reasons ["CopyRight"; "spam"] = [(Copyright, "Copyright")] /\
  _parse_reasons ["nonsense"] = [(Spam, "Spam"); (Other, "Other")] /\
  _parse_reasons ["CopyRight"; "spam"] = _parse_reasons [lower "CopyRight"].
Proof.
  split; [reflexivity|]. split; [reflexivity|].
  exact (proj1 (parse_reasons_spec "CopyRight" ["spam"])).
Defined.

(** ** What a coroutine adds to the trace *)

Lemma frames_ret {A} m0 P (a : A) : frames m0 P (ret a).
Proof. intros s <-. exists (Return a), []. split; [now rewrite app_nil_r; destruct s | constructor]. Qed.

Lemma frames_raise {A} m0 P e : frames m0 P (@raise A e).
Proof. intros s <-. exists (Raise e), []. split; [now rewrite app_nil_r; destruct s | constructor]. Qed.

Lemma frames_lift {A} m0 P (o : outcome A) : frames m0 P (lift o).
Proof. intros s <-. exists o, []. split; [now rewrite app_nil_r; destruct s | constructor]. Qed.

Lemma frames_call {T} env m0 (P : event -> Prop) (r : request T) :
  P (Called r) -> frames m0 P (call env r).
Proof.
  intros H s <-. exists (respond env T (trace s) r), [Called r].
  split; [reflexivity | now constructor].
Qed.

Lemma frames_sleep m0 (P : event -> Prop) d : P (Slept d) -> frames m0 P (sleep d).
Proof. intros H s <-. exists (Return tt), [Slept d]. split; [reflexivity | now constructor]. Qed.

Lemma frames_bind {A B} m0 P (m : M A) (k : A -> M B) :
  frames m0 P m -> (forall a, frames m0 P (k a)) -> frames m0 P (bind m k).
Proof.
  intros Hm Hk s Hs. destruct (Hm s Hs) as (o & e1 & E1 & F1).
  unfold bind. rewrite E1. destruct o as [a|e].
  - destruct (Hk a (State m0 (trace s ++ e1)) eq_refl) as (o2 & e2 & E2 & F2).
    exists o2, (e1 ++ e2). rewrite E2. cbn [trace].
    split; [now rewrite app_assoc | now apply Forall_app].
  - now exists (Raise e), e1.
Qed.

Lemma frames_bind_self {B} m0 P (k : module -> M B) :
  frames m0 P (k m0) -> frames m0 P (bind get_self k).
Proof.
  intros Hk s Hs. unfold bind, get_self. rewrite Hs. now apply Hk.
Qed.

Lemma frames_try {A} m0 P (m h : M A) :
  frames m0 P m -> frames m0 P h -> frames m0 P (try_except m h).
Proof.
  intros Hm Hh s Hs. destruct (Hm s Hs) as (o & e1 & E1 & F1).
  unfold try_except. rewrite E1. destruct o as [a|e].
  - now exists (Return a), e1.
  - destruct (Hh (State m0 (trace s ++ e1)) eq_refl) as (o2 & e2 & E2 & F2).
    exists o2, (e1 ++ e2). rewrite E2. cbn [trace].
    split; [now rewrite app_assoc | now apply Forall_app].
Qed.

Lemma frames_weaken {A} m0 (P Q : event -> Prop) (m : M A) :
  (forall e, P e -> Q e) -> frames m0 P m -> frames m0 Q m.
Proof.
  intros HPQ Hm s Hs. destruct (Hm s Hs) as (o & evs & E & F).
  exists o, evs. split; [exact E|]. revert F. apply Forall_impl, HPQ.
Qed.

(** A coroutine that frames and never raises returns, with its events. *)
Lemma frames_returns {A} m0 P (m : M A) :
  frames m0 P m -> never_raises m ->
  forall s, self s = m0 ->
    exists a evs, m s = (Return a, State m0 (trace s ++ evs)) /\ Forall P evs.
Proof.
  intros Hf Hr s Hs. destruct (Hf s Hs) as (o & evs & E & F).
  destruct (Hr s) as (a & s' & E'). exists a, evs. split; [congruence | exact F].
Qed.

Ltac framing :=
  repeat first
    [ apply frames_ret
    | apply frames_raise
    | apply frames_lift
    | apply frames_bind_self
    | apply frames_bind; [|intros ?]
    | apply frames_try
    | apply frames_call
    | apply frames_sleep
    | match goal with
      | |- frames _ _ (match ?x with _ => _ end) => destruct x eqn:?
      end ].

(** ** Joining through an invite link *)

Lemma has_char_rsplit_last sep s : has_char sep (rsplit_last sep s) = false.
Proof.
  induction s as [|c r IH]; [reflexivity|]. cbn [rsplit_last].
  destruct (has_char sep r) eqn:Hr; [exact IH|].
  destruct (Ascii.eqb c sep) eqn:Hc; [exact Hr|].
  cbn [has_char]. now rewrite Ascii.eqb_sym, Hc, Hr.
Qed.

Lemma has_char_rsplit_other d sep s :
  has_char d s = false -> has_char d (rsplit_last sep s) = false.
Proof.
  induction s as [|c r IH]; [reflexivity|]. cbn [rsplit_last has_char].
  intros H. apply orb_false_iff in H as [Hc Hr].
  destruct (has_char sep r); [now apply IH|].
  destruct (Ascii.eqb c sep); [exact Hr|].
  cbn [has_char]. now rewrite Hc, Hr.
Qed.

Lemma has_char_remove c s : has_char c (remove_char c s) = false.
Proof.
  induction s as [|d r IH]; [reflexivity|]. cbn [remove_char].
  destruct (Ascii.eqb d c) eqn:E; [exact IH|].
  cbn [has_char]. now rewrite Ascii.eqb_sym, E, IH.
Qed.

Lemma has_char_remove_other d c s :
  has_char d s = false -> has_char d (remove_char c s) = false.
Proof.
  induction s as [|x r IH]; [reflexivity|]. cbn [remove_char has_char].
  intros H. apply orb_false_iff in H as [Hx Hr].
  destruct (Ascii.eqb x c); [now apply IH|].
  cbn [has_char]. now rewrite Hx, IH.
Qed.

Lemma contains_char c s : contains (String c "") s = has_char c s.
Proof.
  induction s as [|d r IH]; [reflexivity|]. cbn [contains has_char String.prefix].
  rewrite IH. f_equal.
  destruct (ascii_dec c d) as [->|Hne].
  - rewrite Ascii.eqb_refl. now destruct r.
  - apply Ascii.eqb_neq in Hne. now rewrite Hne.
Qed.

(** [_join_with_link] never raises.  For an empty link it answers [False]
    without any request.  Otherwise it makes exactly one request, from the
    joining client: an invite import when the link has [joinchat] or a [+]
    in it, a channel join otherwise; the hash or slug it passes is the last
    path segment of the link and has no [/] and no [+] in it; and it answers
    whether that request succeeded. *)
Theorem join_with_link_spec (env : environment) (c : client) (link : string)
  (s : state) :
  (truthy link = false -> _join_with_link env c link s = (Return false, s)) /\
  (truthy link = true ->
   exists (h : string) (r : request unit),
     has_char "/" h = false /\ has_char "+" h = false /\
     r = (if contains "joinchat" link || contains "+" link
          then ImportChatInviteRequest c h else JoinChannelRequest c h) /\
     _join_with_link env c link s
     = (Return (succeeded (respond env unit (trace s) r)),
        State (self s) (trace s ++ [Called r]))).
Proof.
  unfold _join_with_link. split; intros Ht; rewrite Ht; [reflexivity|].
  cbn [negb]. unfold try_except, bind, call, ret.
  destruct (contains "joinchat" link || contains "+" link) eqn:E.
  - exists (remove_char "+" (rsplit_last "/" link)), (ImportChatInviteRequest c
             (remove_char "+" (rsplit_last "/" link))).
    split; [apply has_char_remove_other, has_char_rsplit_last|].
    split; [apply has_char_remove|]. split; [reflexivity|].
    now destruct (respond env unit (trace s) _).
  - exists (rsplit_last "/" link), (JoinChannelRequest c (rsplit_last "/" link)).
    apply orb_false_iff in E as [_ E]. rewrite contains_char in E.
    split; [apply has_char_rsplit_last|].
    split; [now apply has_char_rsplit_other|]. split; [reflexivity|].
    now destruct (respond env unit (trace s) _).
Qed.

Lemma join_with_link_spec_witness :
  let s := start (fresh_module 0 [0; 1]%nat) in
  truthy "https://t.me/+AbCd" = true /\
  _join_with_link all_fine (Session 1) "https://t.me/+AbCd" s
  = (Return true,
     State (self s) [Called (ImportChatInviteRequest (Session 1) "AbCd")]) /\
  truthy "" = false /\
  _join_with_link all_fine (Session 1) "" s = (Return false, s).
Proof.
  cbv zeta. split; [reflexivity|]. split; [reflexivity|]. split; [reflexivity|].
  exact (proj1 (join_with_link_spec all_fine (Session 1) ""
                  (start (fresh_module 0 [0; 1]%nat))) eq_refl).
Defined.

(** ** What the membership guarantor asks for *)

Lemma ensure_in_chat_frames env c ch u m0 :
  frames m0 (ensure_request m0 c ch u) (_ensure_in_chat env c ch u).
Proof.
  unfold _ensure_in_chat, attempt, _export_invite_link, _join_with_link.
  framing.
  all: cbn [ensure_request]; repeat split; auto.
  - apply has_char_remove_other, has_char_rsplit_last.
  - apply has_char_remove.
  - right. split; [apply has_char_rsplit_last|].
    apply has_char_rsplit_other.
    match goal with
    | H : (_ || _) = false |- _ =>
        apply orb_false_iff in H as [_ H]; now rewrite contains_char in H
    end.
  - match goal with
    | H : negb (client_eqb _ _) = true |- _ =>
        apply negb_true_iff in H; intros ->;
        now rewrite (proj2 (client_eqb_eq c c) eq_refl) in H
    end.
Qed.

Lemma ensure_request_quiet m c ch u evs :
  Forall (ensure_request m c ch u) evs ->
  senders evs = [] /\ answers evs = [] /\ reporters evs = [] /\ pauses evs = [].
Proof.
  intros F. induction F as [|e evs He _ IH]; [now repeat split|].
  destruct IH as (H1 & H2 & H3 & H4).
  unfold senders, answers, reporters, pauses in *. cbn [flat_map].
  rewrite H1, H2, H3, H4.
  destruct e as [T r| |]; [|destruct He ..].
  destruct r; cbn in He; try destruct He; now repeat split.
Qed.

Lemma ensure_in_chat_run env c ch u s :
  exists b evs,
    _ensure_in_chat env c ch u s = (Return b, State (self s) (trace s ++ evs)) /\
    Forall (ensure_request (self s) c ch u) evs.
Proof.
  exact (frames_returns (self s) _ _ (ensure_in_chat_frames env c ch u (self s))
           (ensure_in_chat_returns env c ch u) s eq_refl).
Qed.

(** [_ensure_in_chat] returns a boolean and leaves the module's attributes
    alone; every request it makes is one of: a permission check of the chat by
    the client or by the primary; a channel join or an invite import by the
    client (the hash or slug free of [/] and [+]); the entity lookup and the
    invite export by the primary; an invitation of exactly the given user by
    a primary that is not the client itself.  It never sends, answers,
    reports or sleeps. *)
Theorem ensure_in_chat_requests (env : environment) (c : client) (ch : chat)
  (u : user) (s : state) :
  exists b evs,
    _ensure_in_chat env c ch u s = (Return b, State (self s) (trace s ++ evs)) /\
    Forall (ensure_request (self s) c ch u) evs /\
    senders evs = [] /\ answers evs = [] /\ reporters evs = [] /\ pauses evs = [].
Proof.
  destruct (ensure_in_chat_run env c ch u s) as (b & evs & E & F).
  exists b, evs. split; [exact E|]. split; [exact F|].
  eapply ensure_request_quiet, F.
Qed.

Ltac step_respond env :=
  match goal with
  | |- context [respond env ?T ?t ?r] =>
      let E := fresh "E" in destruct (respond env T t r) as [?|?] eqn:E
  end.

Ltac run_cases env :=
  repeat (cbn [self trace negb fst snd] in *;
          repeat match goal with x : unit |- _ => destruct x end;
          first
            [ step_respond env
            | match goal with
              | |- context [if ?b then _ else _] => destruct b eqn:?
              end
            | match goal with
              | |- context [match ?o with Some _ => _ | None => _ end] =>
                  destruct o eqn:?
              end ]).

(** When [_ensure_in_chat] answers [True], the last thing it did was a
    successful request by the client itself: a permission check of the chat,
    or the join by the chat's public username, after which membership is not
    checked again. *)
Theorem ensure_in_chat_success (env : environment) (c : client) (ch : chat)
  (u : user) (s s' : state) :
  _ensure_in_chat env c ch u s = (Return true, s') ->
  exists pre (r : request unit),
    trace s' = pre ++ [Called r] /\
    respond env unit pre r = Return tt /\
    (r = get_permissions c ch \/
     exists username, chat_username ch = Some username /\
                      r = JoinChannelRequest c username).
Proof.
  destruct s as [m tr].
  unfold _ensure_in_chat, _export_invite_link, _join_with_link, attempt,
    try_except, bind, call, ret, get_self.
  run_cases env.
  all: try discriminate.
  all: repeat match goal with x : unit |- _ => destruct x end.
  all: intros [= <-]; cbn [trace]; eexists _, _;
    (split; [reflexivity|]); (split; [eassumption|]); eauto.
Qed.

Lemma ensure_in_chat_success_witness :
  let s := start (fresh_module 0 [0; 1]%nat) in
  let ch := Chat 10 (Some "chan") in
  _ensure_in_chat (permissions_fail_for 1) (Session 1) ch (User (Some 1) None) s
  = (Return true,
     State (self s) [Called (get_permissions (Session 1) ch);
                     Called (JoinChannelRequest (Session 1) "chan")]) /\
  exists pre (r : request unit),
    [Called (get_permissions (Session 1) ch);
     Called (JoinChannelRequest (Session 1) "chan")] = pre ++ [Called r] /\
    respond (permissions_fail_for 1) unit pre r = Return tt.
Proof.
  cbv zeta. split; [reflexivity|].
  destruct (ensure_in_chat_success (permissions_fail_for 1) (Session 1)
              (Chat 10 (Some "chan")) (User (Some 1) None)
              (start (fresh_module 0 [0; 1]%nat)) _ eq_refl)
    as (pre & r & Htr & Hok & _).
  now exists pre, r.
Defined.

(** ** Accounting of the report broadcast *)

Lemma answers_app a b : answers (a ++ b) = answers a ++ answers b.
Proof. apply flat_map_app. Qed.

Lemma reporters_app a b : reporters (a ++ b) = reporters a ++ reporters b.
Proof. apply flat_map_app. Qed.

Lemma pauses_app a b : pauses (a ++ b) = pauses a ++ pauses b.
Proof. apply flat_map_app. Qed.

Lemma report_reasons_run env c p reply_id reasons : forall s,
  report_reasons env c p reply_id reasons s
  = (Return tt, State (self s) (trace s ++ report_requests c p reply_id reasons)).
Proof.
  induction reasons as [|[r name] rest IH]; intros [m tr].
  - cbn. now rewrite app_nil_r.
  - cbn [report_reasons report_requests map fst snd].
    erewrite bind_return by apply suppress_call.
    rewrite IH. cbn [self trace]. now rewrite <- app_assoc.
Qed.

Lemma report_requests_seen c p reply_id reasons :
  reporters (report_requests c p reply_id reasons)
  = List.repeat c (List.length reasons) /\
  answers (report_requests c p reply_id reasons) = [] /\
  pauses (report_requests c p reply_id reasons) = [] /\
  senders (report_requests c p reply_id reasons) = [].
Proof.
  induction reasons as [|[r name] rest (H1 & H2 & H3 & H4)]; [now repeat split|].
  unfold reporters, answers, pauses, senders, report_requests in *.
  cbn [map flat_map List.length List.repeat fst snd report_attempt answer_of
         pause_of send_attempt app].
  now rewrite H1, H2, H3, H4.
Qed.

(** Every reason is reported, once and in order, by the account, whatever
    the earlier report requests answer; the loop over the reasons never
    raises. *)
Theorem report_reasons_all_sent (env : environment) (c : client) (p : peer)
  (reply_id : Z) (reasons : list (reason * string)) (s : state) :
  report_reasons env c p reply_id reasons s
  = (Return tt,
     State (self s)
       (trace s ++ map (fun rn => Called (ReportRequest c p [reply_id] (fst rn) (snd rn)))
                     reasons)) /\
  reporters (map (fun rn => Called (ReportRequest c p [reply_id] (fst rn) (snd rn)))
               reasons)
  = List.repeat c (List.length reasons).
Proof.
  split; [apply report_reasons_run | apply report_requests_seen].
Qed.

Lemma try_call_some {T} env (r : request T) s :
  try_except (bind (call env r) (fun p => ret (Some p))) (ret None) s
  = (Return (match respond env T (trace s) r with
             | Return p => Some p
             | Raise _ => None
             end),
     State (self s) (trace s ++ [Called r])).
Proof.
  unfold try_except, bind, call, ret.
  now destruct (respond env T (trace s) r).
Qed.

Lemma call_returns {T} env (r : request T) s v :
  respond env T (trace s) r = Return v ->
  call env r s = (Return v, State (self s) (trace s ++ [Called r])).
Proof. unfold call. now intros ->. Qed.

Lemma skipped_notice_shift idx n a :
  skipped_notice (S idx) n a -> skipped_notice idx (S n) a.
Proof. intros (k & -> & Hk). exists k. split; [reflexivity | lia]. Qed.

Lemma report_loop_run env msg ch reply_id reasons total :
  (forall tr m text, respond env unit tr (answer m text) = Return tt) ->
  forall rest idx success s,
  exists n evs,
    report_loop env msg ch reply_id reasons total idx rest success s
    = (Return n, State (self s) (trace s ++ evs)) /\
    (success <= n)%nat /\
    (n - success + List.length (answers evs) = List.length rest)%nat /\
    Forall (skipped_notice idx (List.length rest)) (answers evs) /\
    List.length (reporters evs) = ((n - success) * List.length reasons)%nat /\
    pauses evs = (if (2 <? total)%nat then List.repeat report_pause (n - success) else []) /\
    senders evs = [].
Proof.
  intros Hans. induction rest as [|acc rest IH]; intros idx success s.
  - exists success, []. cbn [report_loop]. unfold ret. rewrite app_nil_r.
    destruct s. rewrite Nat.sub_diag.
    repeat split; try reflexivity; try lia; [constructor | now destruct (2 <? total)%nat].
  - cbn [report_loop].
    destruct (ensure_in_chat_run env (acc_client acc) ch (acc_user acc) s)
      as (b & evs1 & E1 & F1).
    destruct (ensure_request_quiet _ _ _ _ _ F1) as (Q1 & Q2 & Q3 & Q4).
    erewrite bind_return by exact E1.
    assert (Hskip : forall s1 evs0,
      s1 = State (self s) (trace s ++ evs0) ->
      answers evs0 = [] -> reporters evs0 = [] -> pauses evs0 = [] -> senders evs0 = [] ->
      exists n evs,
        bind (call env (answer msg (report_not_in_chat idx)))
          (fun _ => report_loop env msg ch reply_id reasons total (S idx) rest success) s1
        = (Return n, State (self s) (trace s ++ evs)) /\
        (success <= n)%nat /\
        (n - success + List.length (answers evs) = List.length (acc :: rest))%nat /\
        Forall (skipped_notice idx (List.length (acc :: rest))) (answers evs) /\
        List.length (reporters evs) = ((n - success) * List.length reasons)%nat /\
        pauses evs = (if (2 <? total)%nat then List.repeat report_pause (n - success) else []) /\
        senders evs = []).
    { intros s1 evs0 -> A0 R0 P0 S0.
      erewrite bind_return by (apply call_returns, Hans).
      cbn [self trace].
      destruct (IH (S idx) success
                  (State (self s) ((trace s ++ evs0) ++ [Called (answer msg (report_not_in_chat idx))])))
        as (n & evs & E & Hle & Hcount & Hnot & Hrep & Hp & Hs).
      exists n, (evs0 ++ [Called (answer msg (report_not_in_chat idx))] ++ evs).
      cbn [self trace] in E. rewrite E.
      split; [now rewrite <- !app_assoc|]. split; [exact Hle|].
      rewrite !answers_app, !reporters_app, !pauses_app, !senders_app, A0, R0, P0, S0.
      cbn.
      repeat split; try assumption; try lia.
      constructor.
      - exists idx. split; [reflexivity | lia].
      - revert Hnot. apply Forall_impl. intros a. apply skipped_notice_shift. }
    destruct b; cbn [negb].
    + erewrite bind_return by apply try_call_some. cbn [self trace].
      destruct (respond env peer (trace s ++ evs1) (get_input_entity (acc_client acc) ch))
        as [p|e].
      * erewrite bind_return by apply report_reasons_run.
        erewrite bind_return by apply when_sleep. cbn [self trace].
        match goal with
        | |- context [report_loop _ _ _ _ _ _ _ _ _ ?s1] =>
            destruct (IH (S idx) (success + 1)%nat s1)
              as (n & evs & E & Hle & Hcount & Hnot & Hrep & Hp & Hs)
        end.
        cbn [self trace] in E. rewrite E.
        exists n, (evs1 ++ [Called (get_input_entity (acc_client acc) ch)]
                     ++ report_requests (acc_client acc) p reply_id reasons
                     ++ (if (2 <? total)%nat then [Slept report_pause] else [])
                     ++ evs).
        split; [now rewrite <- !app_assoc|]. split; [lia|].
        destruct (report_requests_seen (acc_client acc) p reply_id reasons)
          as (R1 & R2 & R3 & R4).
        rewrite !answers_app, !reporters_app, !pauses_app, !senders_app,
          Q1, Q2, Q3, Q4, R1, R2, R3, R4.
        assert (Hn : (n - success = S (n - (success + 1)))%nat) by lia.
        rewrite Hn.
        destruct (2 <? total)%nat;
          cbn;
          rewrite ?length_app, ?repeat_length, ?Hp, ?Hs;
          repeat split; try lia;
          (revert Hnot; apply Forall_impl; intros a; apply skipped_notice_shift).
      * apply (Hskip _ (evs1 ++ [Called (get_input_entity (acc_client acc) ch)]));
          [now rewrite <- app_assoc | rewrite ?answers_app, ?reporters_app,
            ?pauses_app, ?senders_app, ?Q1, ?Q2, ?Q3, ?Q4; reflexivity ..].
    + now apply (Hskip _ evs1).
Qed.

(** When answering never fails, the loop of [reportcmd] returns, and its count
    and its notices add up: every account is either counted or told to be not
    in the chat, under its number in the listing; a counted account made one
    report request per reason; a pause follows each counted account, and only
    when there are more than two accounts; no message is sent. *)
Theorem report_accounting (env : environment) (msg : message) (ch : chat)
  (reply_id : Z) (reasons : list (reason * string)) (accounts : list account)
  (s : state) :
  (forall tr m text, respond env unit tr (answer m text) = Return tt) ->
  exists n evs,
    report_loop env msg ch reply_id reasons (List.length accounts) 1 accounts 0 s
    = (Return n, State (self s) (trace s ++ evs)) /\
    (n + List.length (answers evs) = List.length accounts)%nat /\
    Forall (skipped_notice 1 (List.length accounts)) (answers evs) /\
    List.length (reporters evs) = (n * List.length reasons)%nat /\
    pauses evs = (if (2 <? List.length accounts)%nat
                  then List.repeat report_pause n else []) /\
    senders evs = [].
Proof.
  intros Hans.
  destruct (report_loop_run env msg ch reply_id reasons (List.length accounts) Hans
              accounts 1%nat 0%nat s)
    as (n & evs & E & _ & Hcount & Hnot & Hrep & Hp & Hs).
  rewrite Nat.sub_0_r in *. now exists n, evs.
Qed.

Lemma report_accounting_witness :
  let roster := [acct 0 100 "a"; acct 1 101 "b"; acct 2 102 "c"] in
  let s := start (fresh_module 0 [0; 1; 2]%nat) in
  (forall tr m text, respond (entity_fails_for 1) unit tr (answer m text) = Return tt) /\
  exists evs,
    report_loop (entity_fails_for 1) (Message 5 10 []) (Chat 10 None) 7
      [(Spam, "Spam"); (Other, "Other")] 3 1 roster 0 s
    = (Return 2%nat, State (self s) (trace s ++ evs)) /\
    answers evs = [report_not_in_chat 2].
Proof.
  cbv zeta.
  assert (Hans : forall tr m text,
    respond (entity_fails_for 1) unit tr (answer m text) = Return tt) by reflexivity.
  split; [exact Hans|].
  destruct (report_accounting (entity_fails_for 1) (Message 5 10 []) (Chat 10 None) 7
              [(Spam, "Spam"); (Other, "Other")]
              [acct 0 100 "a"; acct 1 101 "b"; acct 2 102 "c"]
              (start (fresh_module 0 [0; 1; 2]%nat)) Hans)
    as (n & evs & E & _).
  exists evs. vm_compute in E. injection E as <- <-. split; reflexivity.
Defined.

(** ** Accounting of the join broadcast *)

Lemma join_loop_run env msg ch silent selected total :
  silent = true \/ (forall tr m text, respond env unit tr (answer m text) = Return tt) ->
  forall rest i ok s,
  exists n evs,
    join_loop env msg ch silent selected total i rest ok s
    = (Return n, State (self s) (trace s ++ evs)) /\
    (ok <= n <= ok + List.length rest)%nat /\
    List.length (answers evs)
    = (if silent then 0 else ok + List.length rest - n)%nat /\
    Forall is_join_fail (answers evs) /\
    pauses evs = (if (2 <? total)%nat then List.repeat join_pause (List.length rest) else []) /\
    senders evs = [] /\ reporters evs = [].
Proof.
  intros Hans. induction rest as [|acc rest IH]; intros i ok s.
  - exists ok, []. cbn [join_loop]. unfold ret. rewrite app_nil_r. destruct s.
    split; [reflexivity|]. split; [lia|].
    split; [destruct silent; cbn; lia|]. split; [constructor|].
    split; [now destruct (2 <? total)%nat|]. now split.
  - cbn [join_loop].
    destruct (ensure_in_chat_run env (acc_client acc) ch (acc_user acc) s)
      as (b & evs1 & E1 & F1).
    destruct (ensure_request_quiet _ _ _ _ _ F1) as (Q1 & Q2 & Q3 & Q4).
    erewrite bind_return by exact E1.
    assert (Hnote : exists ok' evs2,
      (if b then ret (ok + 1)%nat
       else bind (when (negb silent)
                    (call env (answer msg (join_fail (join_label selected i)))))
              (fun _ => ret ok))
        (State (self s) (trace s ++ evs1))
      = (Return ok', State (self s) ((trace s ++ evs1) ++ evs2)) /\
      ok' = (if b then ok + 1 else ok)%nat /\
      answers evs2 = (if b || silent then [] else [join_fail (join_label selected i)]) /\
      pauses evs2 = [] /\ senders evs2 = [] /\ reporters evs2 = []).
    { destruct b.
      - exists (ok + 1)%nat, []. unfold ret. now rewrite app_nil_r.
      - destruct silent; cbn [negb when orb].
        + exists ok, []. unfold bind, ret. now rewrite app_nil_r.
        + destruct Hans as [Hs | Hans]; [discriminate|].
          exists ok, [Called (answer msg (join_fail (join_label selected i)))].
          erewrite bind_return by (apply call_returns, Hans).
          now repeat split. }
    destruct Hnote as (ok' & evs2 & E2 & Hok & A2 & P2 & S2 & R2).
    erewrite bind_return by exact E2.
    erewrite bind_return by apply when_sleep. cbn [self trace].
    match goal with
    | |- context [join_loop _ _ _ _ _ _ _ _ _ ?s1] =>
        destruct (IH (S i) ok' s1) as (n & evs & E & Hle & Hcount & Hfail & Hp & Hs & Hr)
    end.
    cbn [self trace] in E. rewrite E.
    exists n, (evs1 ++ evs2 ++ (if (2 <? total)%nat then [Slept join_pause] else []) ++ evs).
    split; [now rewrite <- !app_assoc|].
    rewrite !answers_app, !reporters_app, !pauses_app, !senders_app,
      Q1, Q2, Q3, Q4, A2, P2, S2, R2, Hp, Hs, Hr. subst ok'.
    assert (Hfail1 : is_join_fail (join_fail (join_label selected i))) by now eexists.
    destruct b, silent, (2 <? total)%nat; cbn in *;
      repeat split; try lia; try assumption; try (constructor; assumption).
Qed.


(** In silent mode, or when answering never fails, the loop of [joincmd]
    returns; its count is the number of accounts that got in; each of the
    others is told with one [join_fail] answer unless the command is silent,
    in which case nothing is answered; a pause follows every account, and
    only when there are more than two; no message is sent and nothing is
    reported. *)
Theorem join_accounting (env : environment) (msg : message) (ch : chat)
  (silent : bool) (selected : option string) (accounts : list account)
  (s : state) :
  silent = true \/ (forall tr m text, respond env unit tr (answer m text) = Return tt) ->
  exists n evs,
    join_loop env msg ch silent selected (List.length accounts) 0 accounts 0 s
    = (Return n, State (self s) (trace s ++ evs)) /\
    (n <= List.length accounts)%nat /\
    List.length (answers evs) = (if silent then 0 else List.length accounts - n)%nat /\
    Forall is_join_fail (answers evs) /\
    pauses evs = (if (2 <? List.length accounts)%nat
                  then List.repeat join_pause (List.length accounts) else []) /\
    senders evs = [] /\ reporters evs = [].
Proof.
  intros Hans.
  destruct (join_loop_run env msg ch silent selected (List.length accounts) Hans
              accounts 0%nat 0%nat s)
    as (n & evs & E & Hle & Hcount & Hrest).
  exists n, evs. split; [exact E|]. split; [lia|]. split; [exact Hcount | exact Hrest].
Qed.

Lemma join_accounting_witness :
  let roster := [acct 0 100 "a"; acct 1 101 "b"; acct 2 102 "c"] in
  let s := start (fresh_module 0 [0; 1; 2]%nat) in
  (true = true \/
   forall tr m text, respond all_failing unit tr (answer m text) = Return tt) /\
  exists evs,
    join_loop all_failing (Message 5 10 []) (Chat 10 None) true None 3 0 roster 0 s
    = (Return 0%nat, State (self s) (trace s ++ evs)) /\
    answers evs = [] /\ pauses evs = [join_pause; join_pause; join_pause].
Proof.
  cbv zeta.
  assert (H : true = true \/ forall tr m text,
    respond all_failing unit tr (answer m text) = Return tt) by now left.
  split; [exact H|].
  destruct (join_accounting all_failing (Message 5 10 []) (Chat 10 None) true None
              [acct 0 100 "a"; acct 1 101 "b"; acct 2 102 "c"]
              (start (fresh_module 0 [0; 1; 2]%nat)) H)
    as (n & evs & E & _).
  exists evs. vm_compute in E. injection E as <- <-. repeat split.
Defined.

(** ** The loop of [saycmd] *)
Lemma all_sent_app env tr a b :
  all_sent env tr (a ++ b) = all_sent env tr a && all_sent env (tr ++ a) b.
Proof.
  revert tr. induction a as [|e a IH]; intros tr.
  - cbn. now rewrite app_nil_r.
  - cbn [List.app all_sent]. rewrite IH, <- app_assoc. cbn [List.app].
    now rewrite andb_assoc.
Qed.

Lemma say_loop_run env target to text reply_to repeat_ : forall n s,
  exists o k evs,
    say_loop env n target to text reply_to repeat_ s
    = (o, State (self s) (trace s ++ evs)) /\
    senders evs = List.repeat target k /\
    (k <= n)%nat /\
    match o with
    | Return _ =>
        k = n /\
        pauses evs = (if (3 <? repeat_)%Z then List.repeat say_pause n else []) /\
        all_sent env (trace s) evs = true
    | Raise e =>
        (1 <= k)%nat /\
        exists pre,
          evs = pre ++ [Called (send_message target to text reply_to)] /\
          respond env unit (trace s ++ pre) (send_message target to text reply_to)
          = Raise e /\
          all_sent env (trace s) pre = true
    end.
Proof.
  induction n as [|n IH]; intros s.
  - exists (Return tt), 0%nat, []. cbn [say_loop]. unfold ret.
    rewrite app_nil_r. destruct s.
    repeat split; try reflexivity. now destruct (3 <? repeat_)%Z.
  - cbn [say_loop]. unfold bind at 1. unfold call at 1.
    destruct (respond env unit (trace s) (send_message target to text reply_to))
      as [[]|e] eqn:Hsend.
    + erewrite bind_return by apply when_sleep. cbn [self trace].
      match goal with
      | |- context [say_loop _ _ _ _ _ _ _ ?s1] =>
          destruct (IH s1) as (o & k & evs & E & Hsenders & Hk & Hout)
      end.
      cbn [self trace] in E, Hout. rewrite E.
      set (head := [Called (send_message target to text reply_to)]
                     ++ (if (3 <? repeat_)%Z then [Slept say_pause] else [])).
      assert (Hhead : all_sent env (trace s) head = true).
      { subst head. destruct (3 <? repeat_)%Z; cbn; now rewrite Hsend. }
      assert (Htr : (trace s ++ [Called (send_message target to text reply_to)])
                      ++ (if (3 <? repeat_)%Z then [Slept say_pause] else [])
                    = trace s ++ head)
        by (subst head; now rewrite <- app_assoc).
      rewrite Htr in *.
      exists o, (S k), (head ++ evs).
      split; [now rewrite <- !app_assoc|].
      rewrite !senders_app, Hsenders.
      split; [subst head; now destruct (3 <? repeat_)%Z|]. split; [lia|].
      destruct o as [[]|e].
      * destruct Hout as (-> & Hp & Hok). split; [reflexivity|].
        split; [rewrite !pauses_app, Hp; subst head; now destruct (3 <? repeat_)%Z|].
        now rewrite all_sent_app, Hhead, Hok.
      * destruct Hout as [Hk1 (pre & -> & Hraise & Hok)]. split; [lia|].
        exists (head ++ pre).
        split; [now rewrite <- !app_assoc|].
        split; [now rewrite app_assoc|].
        now rewrite all_sent_app, Hhead, Hok.
    + exists (Raise e), 1%nat, [Called (send_message target to text reply_to)].
      repeat split; try reflexivity; try lia.
      exists []. split; [reflexivity|]. rewrite app_nil_r. now split.
Qed.

(** The loop of [saycmd] sends from the one target only and, unlike the loop
    of [spamacccmd], does not catch a failing send.  It returns only when
    all [n] sends were made and every one of them was answered without an
    exception, with a pause of 0.35 s after each when the count exceeds 3
    and none otherwise.  Otherwise it raises: every send before the failing
    one was answered without an exception, the failing send is the last
    thing done, and the exception it raised is the one that goes up to the
    caller. *)
Theorem say_stops_at_first_failure (env : environment) (target : client) (to : Z)
  (text : string) (reply_to : option Z) (count : Z) (n : nat) (s : state) :
  exists o k evs,
    say_loop env n target to text reply_to count s
    = (o, State (self s) (trace s ++ evs)) /\
    senders evs = List.repeat target k /\
    (k <= n)%nat /\
    match o with
    | Return _ =>
        k = n /\
        pauses evs = (if (3 <? count)%Z then List.repeat (35 # 100) n else []) /\
        all_sent env (trace s) evs = true
    | Raise e =>
        (1 <= k)%nat /\
        exists pre,
          evs = pre ++ [Called (send_message target to text reply_to)] /\
          respond env unit (trace s ++ pre) (send_message target to text reply_to)
          = Raise e /\
          all_sent env (trace s) pre = true
    end.
Proof. apply say_loop_run. Qed.

(** ** The roster cache, continued *)

Lemma refresh_cached env s :
  negb (Nat.eqb (List.length (_accounts_cache (self s))) 0) = true ->
  (monotonic env (trace s) - _accounts_cache_ts (self s) <? 60)%float = true ->
  _refresh_accounts env false s
  = (Return (_accounts_cache (self s)), State (self s) (trace s ++ [Clock])).
Proof.
  intros Hcache Hage. destruct s as [m tr]. cbn [self trace] in *.
  unfold _refresh_accounts, bind, get_self, now, ret. cbn [self trace negb andb].
  rewrite Hcache. cbn [self trace]. now rewrite Hage.
Qed.

Lemma roster_from_length env sessions : forall tr,
  (List.length (roster_from env tr sessions) <= List.length sessions)%nat.
Proof.
  induction sessions as [|c rest IH]; intros tr; [cbn; lia|].
  rewrite roster_from_cons, length_app. specialize (IH (tr ++ [asked c])).
  destruct (respond env user tr (get_me c)); cbn [List.length]; lia.
Qed.

(** What a refresh leaves behind, whichever way it goes. *)
Lemma refresh_outcome env force s :
  exists roster t evs,
    _refresh_accounts env force s
    = (Return roster,
       State (Module_ roster t (_client (self s)) (allclients (self s)))
             (trace s ++ evs)) /\
    (roster = _accounts_cache (self s) /\ t = _accounts_cache_ts (self s) /\
     force = false /\ evs = [Clock]
     \/
     exists consulted,
       roster = roster_from env (trace s ++ consulted) (sessions_of (self s)) /\
       t = monotonic env (trace s ++ consulted ++ map asked (sessions_of (self s))) /\
       evs = consulted ++ map asked (sessions_of (self s)) ++ [Clock] /\
       (consulted = [] \/ consulted = [Clock])).
Proof.
  destruct (if negb force && negb (Nat.eqb (List.length (_accounts_cache (self s))) 0)
            then (monotonic env (trace s) - _accounts_cache_ts (self s) <? 60)%float
            else false) eqn:E.
  - destruct force; [discriminate|]. cbn [negb andb] in E.
    destruct (negb (Nat.eqb (List.length (_accounts_cache (self s))) 0)) eqn:Hc;
      [|discriminate].
    rewrite (refresh_cached env s Hc E).
    exists (_accounts_cache (self s)), (_accounts_cache_ts (self s)), [Clock].
    split; [now destruct s as [[] ?]|]. left. now repeat split.
  - rewrite (refresh_requery env force s E). unfold requery.
    set (consulted := if negb force && _ then [Clock] else []).
    eexists _, _, (consulted ++ map asked (sessions_of (self s)) ++ [Clock]).
    split; [now rewrite <- !app_assoc|]. right. exists consulted.
    split; [reflexivity|]. split; [reflexivity|]. split; [reflexivity|].
    subst consulted. destruct (_ && _); auto.
Qed.

Lemma refresh_after env force s roster s1 :
  _refresh_accounts env force s = (Return roster, s1) ->
  _accounts_cache (self s1) = roster /\
  _client (self s1) = _client (self s) /\
  allclients (self s1) = allclients (self s).
Proof.
  destruct (refresh_outcome env force s) as (r & t & evs & E & _).
  rewrite E. intros [= <- <-]. now repeat split.
Qed.

(** [_refresh_accounts] never raises; what it returns is what the cache holds
    afterwards; it leaves [_client] and [allclients] alone; it only reads the
    clock and asks [get_me] of enumerated sessions; and a roster it builds
    has at most one entry per enumerated session, each for one of them. *)
Theorem refresh_keeps_cache (env : environment) (force : bool) (s : state) :
  exists roster s' evs,
    _refresh_accounts env force s = (Return roster, s') /\
    _accounts_cache (self s') = roster /\
    _client (self s') = _client (self s) /\
    allclients (self s') = allclients (self s) /\
    trace s' = trace s ++ evs /\
    Forall (refresh_event (sessions_of (self s))) evs /\
    (roster = _accounts_cache (self s) \/
     ((List.length roster <= List.length (sessions_of (self s)))%nat /\
      forall acc, In acc roster -> In (acc_client acc) (sessions_of (self s)))).
Proof.
  destruct (refresh_outcome env force s) as (roster & t & evs & E & Hcase).
  exists roster, (State (Module_ roster t (_client (self s)) (allclients (self s)))
                   (trace s ++ evs)), evs.
  split; [exact E|]. repeat (split; [reflexivity|]).
  destruct Hcase as [(-> & _ & _ & ->) | (consulted & -> & _ & -> & Hc)].
  - split; [|now left]. constructor; [now left | constructor].
  - split.
    + apply Forall_app. split; [destruct Hc as [-> | ->]; repeat constructor|].
      apply Forall_app. split; [|repeat constructor].
      apply Forall_forall. intros e He. apply in_map_iff in He as (c & <- & Hin).
      right. now exists c.
    + right. split; [apply roster_from_length|].
      intros acc. apply roster_clients_in.
Qed.

(** Two calls in a row: a roster that a call returned, if it is not empty,
    is returned again by a following call without [force] as long as less
    than 60 seconds have passed since its stamp (the float difference of the
    clock and the stamp, as the code takes it, is below 60), after reading
    the clock only; an empty roster is never served from the cache, the
    sessions are asked again at once. *)
Theorem refresh_twice (env : environment) (force : bool) (s s1 : state)
  (roster : list account) :
  _refresh_accounts env force s = (Return roster, s1) ->
  (roster <> [] ->
   (monotonic env (trace s1) - _accounts_cache_ts (self s1) <? 60)%float = true ->
   _refresh_accounts env false s1
   = (Return roster, State (self s1) (trace s1 ++ [Clock]))) /\
  (roster = [] ->
   _refresh_accounts env false s1 = requery env (self s1) (trace s1)).
Proof.
  intros H. destruct (refresh_after env force s roster s1 H) as (Hcache & _ & _).
  split.
  - intros Hne Hage. rewrite <- Hcache. apply refresh_cached.
    + rewrite Hcache. now apply nonempty_length.
    + exact Hage.
  - intros ->. rewrite refresh_requery; rewrite Hcache; cbn [List.length Nat.eqb negb andb];
      [now rewrite app_nil_r | reflexivity].
Qed.

Lemma refresh_twice_witness :
  let s := start (fresh_module 0 [0; 1]%nat) in
  let roster := [Account (Session 1) (User (Some 1) None)] in
  let s1 := State (Module_ roster 2%float (Some (Session 0))
                     (Some [Session 0; Session 1]))
              [asked (Session 0); asked (Session 1); Clock] in
  _refresh_accounts (get_me_fails_for 0) true s = (Return roster, s1) /\
  roster <> [] /\
  (monotonic (get_me_fails_for 0) (trace s1) - _accounts_cache_ts (self s1) <? 60)%float = true /\
  _refresh_accounts (get_me_fails_for 0) false s1
  = (Return roster, State (self s1) (trace s1 ++ [Clock])).
Proof.
  cbv zeta. split; [reflexivity|]. split; [discriminate|]. split; [reflexivity|].
  exact (proj1 (refresh_twice (get_me_fails_for 0) true
                  (start (fresh_module 0 [0; 1]%nat)) _ _ eq_refl)
           ltac:(discriminate) eq_refl).
Defined.

(** ** Even distribution of the sends *)

Lemma turns_count L j : (j < L)%nat -> forall n,
  List.length (filter (fun k => Nat.eqb (k mod L) j) (seq 0 n))
  = (n / L + (if (j <? n mod L)%nat then 1 else 0))%nat.
Proof.
  intros Hj. induction n as [|n IH].
  - cbn [seq filter List.length]. rewrite Nat.Div0.div_0_l, Nat.Div0.mod_0_l.
    now destruct (Nat.ltb_spec j 0); [lia|].
  - rewrite seq_S, filter_app, length_app, IH. cbn [Nat.add filter].
    assert (HL : L <> 0%nat) by lia.
    pose proof (Nat.div_mod_eq n L) as Hn.
    pose proof (Nat.mod_upper_bound n L HL) as Hr.
    set (q := (n / L)%nat) in *. set (r := (n mod L)%nat) in *.
    destruct (Nat.eq_dec (S r) L) as [Hlast | Hmore].
    + assert (Hq : (S n / L = S q)%nat)
        by (symmetry; apply (Nat.div_unique _ _ _ 0%nat); nia).
      assert (Hm : (S n mod L = 0)%nat)
        by (symmetry; apply (Nat.mod_unique _ _ (S q)); nia).
      rewrite Hq, Hm. clear Hq Hm Hn IH. clearbody q r.
      destruct (Nat.eqb_spec r j), (Nat.ltb_spec j r), (Nat.ltb_spec j 0);
        cbn [List.length]; lia.
    + assert (Hq : (S n / L = q)%nat)
        by (symmetry; apply (Nat.div_unique _ _ _ (S r)); nia).
      assert (Hm : (S n mod L = S r)%nat)
        by (symmetry; apply (Nat.mod_unique _ _ q); nia).
      rewrite Hq, Hm. clear Hq Hm Hn IH. clearbody q r.
      destruct (Nat.eqb_spec r j), (Nat.ltb_spec j r), (Nat.ltb_spec j (S r));
        cbn [List.length]; lia.
Qed.

Lemma senders_spam_turns accounts to text reply_to count : forall n i,
  senders (flat_map (spam_step accounts to text reply_to count) (seq i n))
  = flat_map (fun k => match nth_error accounts (k mod List.length accounts) with
                       | Some acc => [acc_client acc]
                       | None => []
                       end) (seq i n).
Proof.
  induction n as [|n IH]; intros i; [reflexivity|].
  cbn [seq flat_map]. rewrite senders_app, IH. f_equal.
  unfold spam_step. rewrite !senders_app.
  destruct (nth_error accounts (i mod List.length accounts));
    destruct (1 <? _)%nat, (_ && _); reflexivity.
Qed.

Lemma nodup_position (accounts : list account) j k acc acc' :
  NoDup (map acc_client accounts) ->
  nth_error accounts j = Some acc -> nth_error accounts k = Some acc' ->
  client_eqb (acc_client acc') (acc_client acc) = Nat.eqb k j.
Proof.
  intros Hnd Hj Hk.
  destruct (Nat.eqb_spec k j) as [->|Hne].
  - apply client_eqb_eq. congruence.
  - destruct (client_eqb (acc_client acc') (acc_client acc)) eqn:E; [|reflexivity].
    apply client_eqb_eq in E. exfalso. apply Hne.
    apply (proj1 (NoDup_nth_error (map acc_client accounts)) Hnd).
    + rewrite length_map. apply nth_error_Some. congruence.
    + rewrite !nth_error_map, Hj, Hk. cbn. now rewrite E.
Qed.

Lemma sends_of_position (accounts : list account) j acc :
  NoDup (map acc_client accounts) ->
  nth_error accounts j = Some acc ->
  forall n i,
    List.length (filter (fun c => client_eqb c (acc_client acc))
      (flat_map (fun k => match nth_error accounts (k mod List.length accounts) with
                          | Some a => [acc_client a]
                          | None => []
                          end) (seq i n)))
    = List.length (filter (fun k => Nat.eqb (k mod List.length accounts) j) (seq i n)).
Proof.
  intros Hnd Hj. induction n as [|n IH]; intros i; [reflexivity|].
  cbn [seq flat_map filter]. rewrite filter_app, length_app, IH.
  assert (Hne : accounts <> []) by (destruct accounts; [now destruct j | discriminate]).
  destruct (nth_error_mod accounts i Hne) as [a Ha]. rewrite Ha.
  cbn [filter]. rewrite (nodup_position accounts j _ acc a Hnd Hj Ha).
  now destruct (Nat.eqb _ j).
Qed.

(** The sends of [spamacccmd] are spread evenly: over accounts with distinct
    clients, after [n] iterations the account at position [j] has made
    [n / len] send attempts, and one more when [j < n mod len]. *)
Theorem spam_even_distribution (env : environment) (accounts : list account)
  (to : Z) (text : string) (reply_to : option Z) (count : Z) (n : nat) (s : state)
  (j : nat) (acc : account) :
  NoDup (map acc_client accounts) ->
  nth_error accounts j = Some acc ->
  exists events,
    spam_loop env n 0 accounts to text reply_to count s
    = (Return tt, State (self s) (trace s ++ events)) /\
    List.length (filter (fun c => client_eqb c (acc_client acc)) (senders events))
    = (n / List.length accounts
       + (if (j <? n mod List.length accounts)%nat then 1 else 0))%nat.
Proof.
  intros Hnd Hj.
  assert (Hne : accounts <> []) by (destruct accounts; [now destruct j | discriminate]).
  exists (flat_map (spam_step accounts to text reply_to count) (seq 0 n)).
  split; [now apply spam_loop_run|].
  rewrite senders_spam_turns, (sends_of_position accounts j acc Hnd Hj).
  apply turns_count. apply nth_error_Some. congruence.
Qed.

Lemma spam_even_distribution_witness :
  let a := acct 0 100 "a" in
  let b := acct 1 101 "b" in
  NoDup (map acc_client [a; b]) /\
  nth_error [a; b] 0 = Some a /\
  exists events,
    spam_loop (send_fails_for 0) 5 0 [a; b] 10 "hi" None 5
      (start (fresh_module 0 [0; 1]%nat))
    = (Return tt, State (fresh_module 0 [0; 1]%nat) ([] ++ events)) /\
    List.length (filter (fun c => client_eqb c (Session 0)) (senders events)) = 3%nat.
Proof.
  cbv zeta.
  assert (Hnd : NoDup (map acc_client [acct 0 100 "a"; acct 1 101 "b"])).
  { cbn. repeat constructor; cbn; intuition discriminate. }
  split; [exact Hnd|]. split; [reflexivity|].
  exact (spam_even_distribution (send_fails_for 0) [acct 0 100 "a"; acct 1 101 "b"]
           10 "hi" None 5 5 (start (fresh_module 0 [0; 1]%nat)) 0 (acct 0 100 "a")
           Hnd eq_refl).
Defined.

(** ** What the commands may do *)

Lemma emits_ret {A} P (a : A) : emits P (ret a).
Proof. intros s. exists (Return a), s, []. now rewrite app_nil_r. Qed.

Lemma emits_raise {A} P e : emits P (@raise A e).
Proof. intros s. exists (Raise e), s, []. now rewrite app_nil_r. Qed.

Lemma emits_lift {A} P (o : outcome A) : emits P (lift o).
Proof. intros s. exists o, s, []. now rewrite app_nil_r. Qed.

Lemma emits_get_self P : emits P get_self.
Proof. intros s. exists (Return (self s)), s, []. now rewrite app_nil_r. Qed.

Lemma emits_call {T} env (P : event -> Prop) (r : request T) :
  P (Called r) -> emits P (call env r).
Proof.
  intros H s. eexists _, _, [Called r]. split; [reflexivity|].
  split; [reflexivity | now constructor].
Qed.

Lemma emits_sleep (P : event -> Prop) d : P (Slept d) -> emits P (sleep d).
Proof.
  intros H s. eexists _, _, [Slept d]. split; [reflexivity|].
  split; [reflexivity | now constructor].
Qed.

Lemma emits_bind {A B} P (m : M A) (k : A -> M B) :
  emits P m -> (forall a, emits P (k a)) -> emits P (bind m k).
Proof.
  intros Hm Hk s. destruct (Hm s) as (o & s1 & e1 & E1 & T1 & F1).
  unfold bind. rewrite E1. destruct o as [a|e].
  - destruct (Hk a s1) as (o2 & s2 & e2 & E2 & T2 & F2).
    exists o2, s2, (e1 ++ e2). split; [exact E2|].
    split; [now rewrite T2, T1, app_assoc | now apply Forall_app].
  - now exists (Raise e), s1, e1.
Qed.

Lemma emits_try {A} P (m h : M A) :
  emits P m -> emits P h -> emits P (try_except m h).
Proof.
  intros Hm Hh s. destruct (Hm s) as (o & s1 & e1 & E1 & T1 & F1).
  unfold try_except. rewrite E1. destruct o as [a|e].
  - now exists (Return a), s1, e1.
  - destruct (Hh s1) as (o2 & s2 & e2 & E2 & T2 & F2).
    exists o2, s2, (e1 ++ e2). split; [exact E2|].
    split; [now rewrite T2, T1, app_assoc | now apply Forall_app].
Qed.

Lemma emits_when P b m : emits P m -> emits P (when b m).
Proof. destruct b; [trivial | intros _; apply emits_ret]. Qed.

Lemma emits_suppress P m : emits P m -> emits P (suppress m).
Proof. intros H. apply emits_try; [exact H | apply emits_ret]. Qed.

Lemma emits_refresh env force (P : event -> Prop) :
  P Clock -> (forall c, P (asked c)) -> emits P (_refresh_accounts env force).
Proof.
  intros Hclock Hasked s.
  destruct (refresh_outcome env force s) as (roster & t & evs & E & Hcase).
  eexists _, _, evs. split; [exact E|]. split; [reflexivity|].
  destruct Hcase as [(_ & _ & _ & ->) | (consulted & _ & _ & -> & Hc)].
  - now repeat constructor.
  - apply Forall_app. split; [destruct Hc as [-> | ->]; now repeat constructor|].
    apply Forall_app. split; [|now repeat constructor].
    apply Forall_forall. intros e He. apply in_map_iff in He as (c & <- & _).
    apply Hasked.
Qed.

Lemma emits_ensure env c ch u (P : event -> Prop) :
  (forall m0 e, ensure_request m0 c ch u e -> P e) ->
  emits P (_ensure_in_chat env c ch u).
Proof.
  intros HP s. destruct (ensure_in_chat_run env c ch u s) as (b & evs & E & F).
  eexists _, _, evs. split; [exact E|]. split; [reflexivity|].
  revert F. apply Forall_impl, HP.
Qed.

Lemma ensure_request_within m0 c ch u ks msg ds e :
  In Membership ks -> ensure_request m0 c ch u e -> within ks msg ds e.
Proof.
  intros Hk He. destruct e as [T r| |]; [|destruct He ..].
  destruct r; cbn in He; try destruct He; now split.
Qed.

Ltac emitting :=
  repeat first
    [ apply emits_ret
    | apply emits_raise
    | apply emits_lift
    | apply emits_get_self
    | apply emits_refresh
    | apply emits_ensure
    | apply emits_bind; [|intros ?]
    | apply emits_try
    | apply emits_when
    | apply emits_suppress
    | apply emits_call
    | apply emits_sleep
    | progress cbv zeta
    | match goal with
      | |- emits _ (match ?x with _ => _ end) => destruct x eqn:?
      end ].

Ltac within_kinds :=
  try (intros; eapply ensure_request_within; [|eassumption]);
  try (unfold within, asked; split);
  cbn; auto 12.

Section Footprints.

Variable env : environment.
Variable msg : message.
Variable kinds : list kind.
Variable durations : list Q.

Lemma emits_say_loop target text reply_to count :
  In Send kinds -> In Pause kinds -> In say_pause durations ->
  forall n, emits (within kinds msg durations) (say_loop env n target (chat_id msg) text reply_to count).
Proof.
  intros H1 H2 H3. induction n as [|n IH]; cbn [say_loop]; emitting;
    try exact IH; within_kinds.
Qed.

Lemma emits_spam_loop accounts text reply_to count :
  In Send kinds -> In Pause kinds ->
  In spam_pause durations -> In spam_round_pause durations ->
  forall n i, emits (within kinds msg durations) (spam_loop env n i accounts (chat_id msg) text reply_to count).
Proof.
  intros H1 H2 H3 H4. induction n as [|n IH]; intros i; cbn [spam_loop]; emitting;
    try apply IH; within_kinds.
Qed.

Lemma emits_report_reasons c p reply_id reasons :
  In Report kinds -> emits (within kinds msg durations) (report_reasons env c p reply_id reasons).
Proof.
  intros H1. induction reasons as [|[r name] rest IH]; cbn [report_reasons];
    emitting; try exact IH; within_kinds.
Qed.

Lemma emits_report_loop ch reply_id reasons total :
  In Host kinds -> In Membership kinds -> In Report kinds -> In Pause kinds ->
  In report_pause durations ->
  forall rest idx success,
    emits (within kinds msg durations) (report_loop env msg ch reply_id reasons total idx rest success).
Proof.
  intros H1 H2 H3 H4 H5. induction rest as [|acc rest IH]; intros idx success;
    cbn [report_loop]; emitting;
    try apply IH; try (now apply emits_report_reasons); within_kinds.
Qed.

Lemma emits_join_loop ch silent selected total :
  In Host kinds -> In Membership kinds -> In Pause kinds ->
  In join_pause durations ->
  forall rest i ok,
    emits (within kinds msg durations) (join_loop env msg ch silent selected total i rest ok).
Proof.
  intros H1 H2 H3 H4. induction rest as [|acc rest IH]; intros i ok;
    cbn [join_loop]; emitting; try apply IH; within_kinds.
Qed.

End Footprints.

Lemma listacccmd_emits env msg :
  emits (within [Host; Identity; Time] msg []) (listacccmd env msg).
Proof. unfold listacccmd. emitting; within_kinds. Qed.

Lemma saycmd_emits env msg :
  emits (within [Host; Identity; Time; Send; Pause] msg [say_pause]) (saycmd env msg).
Proof.
  unfold saycmd. emitting; try (apply emits_say_loop; cbn; auto 12); within_kinds.
Qed.

Lemma reportcmd_emits env msg :
  emits (within [Host; Identity; Time; Membership; Report; Pause] msg [report_pause])
    (reportcmd env msg).
Proof.
  unfold reportcmd. emitting; try (apply emits_report_loop; cbn; auto 12); within_kinds.
Qed.

Lemma joincmd_emits env msg :
  emits (within [Host; Identity; Time; Membership; Pause] msg [join_pause])
    (joincmd env msg).
Proof.
  unfold joincmd. emitting; try (apply emits_join_loop; cbn; auto 12); within_kinds.
Qed.

Lemma spamacccmd_emits env msg :
  emits (within [Host; Identity; Time; Send; Pause] msg [spam_pause; spam_round_pause])
    (spamacccmd env msg).
Proof.
  unfold spamacccmd. emitting; try (apply emits_spam_loop; cbn; auto 12); within_kinds.
Qed.

Lemma no_send_senders evs : Forall no_send evs -> senders evs = [].
Proof.
  induction 1 as [|e evs He _ IH]; [reflexivity|].
  unfold senders in *. cbn [flat_map]. now rewrite He, IH.
Qed.

Lemma within_no_send ks msg ds e :
  ~ In Send ks -> within ks msg ds e -> no_send e.
Proof.
  intros Hk [Hin _]. destruct e as [T r| |]; [|reflexivity ..].
  destruct r; try reflexivity. now destruct Hk.
Qed.

Lemma emits_weaken {A} (P Q : event -> Prop) (m : M A) :
  (forall e, P e -> Q e) -> emits P m -> emits Q m.
Proof.
  intros HPQ Hm s. destruct (Hm s) as (o & s' & evs & E & T & F).
  exists o, s', evs. split; [exact E|]. split; [exact T|].
  revert F. apply Forall_impl, HPQ.
Qed.

Lemma sends_quiet {A} (S : list client -> Prop) (m : M A) :
  S [] -> emits no_send m -> sends S m.
Proof.
  intros H0 Hm s. destruct (Hm s) as (o & s' & evs & E & T & F).
  exists o, s', evs. split; [exact E|]. split; [exact T|].
  now rewrite (no_send_senders _ F).
Qed.

Lemma sends_after_quiet {A B} (S : list client -> Prop) (m : M A) (k : A -> M B) :
  S [] -> emits no_send m -> (forall a, sends S (k a)) -> sends S (bind m k).
Proof.
  intros H0 Hm Hk s. destruct (Hm s) as (o & s1 & e1 & E1 & T1 & F1).
  unfold bind. rewrite E1. destruct o as [a|e].
  - destruct (Hk a s1) as (o2 & s2 & e2 & E2 & T2 & F2).
    exists o2, s2, (e1 ++ e2). split; [exact E2|].
    split; [now rewrite T2, T1, app_assoc|].
    now rewrite senders_app, (no_send_senders _ F1).
  - exists (Raise e), s1, e1. split; [reflexivity|]. split; [exact T1|].
    now rewrite (no_send_senders _ F1).
Qed.

Lemma sends_before_quiet {A B} (S : list client -> Prop) (m : M A) (k : A -> M B) :
  sends S m -> (forall a, emits no_send (k a)) -> sends S (bind m k).
Proof.
  intros Hm Hk s. destruct (Hm s) as (o & s1 & e1 & E1 & T1 & F1).
  unfold bind. rewrite E1. destruct o as [a|e].
  - destruct (Hk a s1) as (o2 & s2 & e2 & E2 & T2 & F2).
    exists o2, s2, (e1 ++ e2). split; [exact E2|].
    split; [now rewrite T2, T1, app_assoc|].
    now rewrite senders_app, (no_send_senders _ F2), app_nil_r.
  - now exists (Raise e), s1, e1.
Qed.

Lemma sends_after_lift {A B} (S : list client -> Prop) (o : outcome A) (k : A -> M B) :
  S [] -> (forall a, o = Return a -> sends S (k a)) -> sends S (bind (lift o) k).
Proof.
  intros H0 Hk s. unfold bind, lift. destruct o as [a|e].
  - now apply Hk.
  - exists (Raise e), s, []. now rewrite app_nil_r.
Qed.

Lemma sends_after_ret {A B} (S : list client -> Prop) (a : A) (k : A -> M B) :
  sends S (k a) -> sends S (bind (ret a) k).
Proof. intros H s. unfold bind, ret. apply H. Qed.

Lemma no_send_host msg ds e : within [Host; Identity; Time; Pause] msg ds e -> no_send e.
Proof. apply within_no_send. cbn. intuition discriminate. Qed.

Ltac quietly msg :=
  solve [ apply (emits_weaken (within [Host; Identity; Time; Pause] msg []) no_send);
          [ apply no_send_host | emitting; within_kinds ] ].

Lemma spam_loop_sends env accounts to text reply_to count n :
  accounts <> [] ->
  sends (fun l => List.length l = n) (spam_loop env n 0 accounts to text reply_to count).
Proof.
  intros Hne s. rewrite (spam_loop_run env accounts to text reply_to count Hne).
  eexists _, _, _. split; [reflexivity|]. split; [reflexivity|].
  now apply senders_count.
Qed.

Lemma sends_weaken {A} (S S' : list client -> Prop) (m : M A) :
  (forall l, S l -> S' l) -> sends S m -> sends S' m.
Proof.
  intros H Hm s. destruct (Hm s) as (o & s' & evs & E & T & F).
  exists o, s', evs. auto.
Qed.

Lemma spam_count_at_least_1 args count :
  spam_count args = Return (Some count) -> 1 <= count.
Proof.
  unfold spam_count. destruct (isdigit _); [|discriminate].
  destruct (int _); [|discriminate]. intros [= <-]. lia.
Qed.

Lemma spamacccmd_sends env msg :
  sends (fun l =>
           l = [] \/
           exists count,
             spam_count (fst (_extract_silent (get_args msg))) = Return (Some count) /\
             1 <= count /\ List.length l = Z.to_nat count)
    (spamacccmd env msg).
Proof.
  unfold spamacccmd.
  destruct (_extract_silent (get_args msg)) as [args silent]. cbn [fst].
  destruct (List.length args <? 2)%nat; [apply sends_quiet; [now left | quietly msg]|].
  apply sends_after_quiet; [now left | quietly msg |]. intros accounts.
  destruct accounts as [|a0 rest0]; [apply sends_quiet; [now left | quietly msg]|].
  apply sends_after_lift; [now left|]. intros [count|] Hcount;
    [|apply sends_quiet; [now left | quietly msg]].
  apply sends_after_quiet; [now left | quietly msg |]. intros [acc_idx text_parts].
  destruct text_parts as [|w ws]; [apply sends_quiet; [now left | quietly msg]|].
  apply sends_after_quiet; [now left | quietly msg |]. intros reply.
  assert (Hloop : forall target, target <> [] ->
    sends (fun l => l = [] \/
             exists count0, Return (Some count) = Return (Some count0) /\
               1 <= count0 /\ List.length l = Z.to_nat count0)
      (bind (ret target) (fun target_accounts =>
         bind (spam_loop env (Z.to_nat count) 0 target_accounts (chat_id msg)
                 (join " " (w :: ws)) (option_map msg_id reply) count)
           (fun _ =>
              if silent then suppress (call env (delete msg))
              else bind
                     match acc_idx with
                     | Some k =>
                         match nth_error (a0 :: rest0) k with
                         | Some acc => ret (Some (acc_user acc))
                         | None => raise IndexError
                         end
                     | None => ret None
                     end
                     (fun sent_from => call env (answer msg (spam_sent sent_from count))))))).
  { intros target Hne. apply sends_after_ret. apply sends_before_quiet.
    - eapply sends_weaken; [|now apply spam_loop_sends].
      intros l Hl. right. exists count. split; [reflexivity|].
      split; [eapply spam_count_at_least_1, Hcount | exact Hl].
    - intros _. quietly msg. }
  rewrite <- Hcount in Hloop.
  destruct acc_idx as [k|].
  - destruct (nth_error (a0 :: rest0) k) as [acc|] eqn:Hk.
    + apply Hloop. discriminate.
    + intros s. unfold bind at 1, raise. exists (Raise IndexError), s, [].
      rewrite app_nil_r. repeat split. now left.
  - apply Hloop. discriminate.
Qed.

Lemma say_loop_sends env target to text reply_to count n :
  sends (fun l => exists k, l = List.repeat target k /\ (k <= n)%nat)
    (say_loop env n target to text reply_to count).
Proof.
  intros s. destruct (say_loop_run env target to text reply_to count n s)
    as (o & k & evs & E & Hs & Hk & _).
  eexists _, _, evs. split; [exact E|]. split; [reflexivity|]. now exists k.
Qed.

Lemma saycmd_sends env msg :
  sends (fun l =>
           l = [] \/
           exists count parts target k,
             say_repeat (List.tl (fst (_extract_silent (get_args msg))))
             = Return (count, parts) /\
             1 <= count /\
             l = List.repeat target k /\ (k <= Z.to_nat count)%nat)
    (saycmd env msg).
Proof.
  unfold saycmd.
  destruct (_extract_silent (get_args msg)) as [args silent]. cbn [fst].
  destruct args as [|acc_selector [|w ws]];
    try (apply sends_quiet; [now left | quietly msg]).
  cbn [List.tl].
  apply sends_after_lift; [now left|]. intros [count parts] Hcount.
  destruct (negb (truthy (strip (join " " parts))));
    [apply sends_quiet; [now left | quietly msg]|].
  apply sends_after_quiet; [now left | quietly msg |]. intros accounts.
  apply sends_after_lift; [now left|]. intros [idx|] Hidx;
    [|apply sends_quiet; [now left | quietly msg]].
  destruct (nth_error accounts idx) as [acc|];
    [|apply sends_quiet; [now left | quietly msg]].
  apply sends_after_quiet; [now left | quietly msg |]. intros reply.
  apply sends_before_quiet; [|intros _; quietly msg].
  eapply sends_weaken; [|apply say_loop_sends].
  intros l (k & -> & Hk). right. exists count, parts, (acc_client acc), k.
  split; [exact Hcount|]. split; [|now split].
  unfold say_repeat in Hcount.
  destruct (_ && _); [|now injection Hcount as <- _].
  destruct (int _); [|discriminate]. injection Hcount as <- _. lia.
Qed.

Lemma emits_and_sends {A} (P : event -> Prop) (S : list client -> Prop) (m : M A) :
  emits P m -> sends S m ->
  forall s, exists o s' evs,
    m s = (o, s') /\ trace s' = trace s ++ evs /\ Forall P evs /\ S (senders evs).
Proof.
  intros He Hs s. destruct (He s) as (o & s1 & e1 & E1 & T1 & F1).
  destruct (Hs s) as (o2 & s2 & e2 & E2 & T2 & F2).
  rewrite E1 in E2. injection E2 as <- <-.
  rewrite T1 in T2. apply app_inv_head in T2. subst e2.
  now exists o, s1, e1.
Qed.

(** Whatever the environment answers, [saycmd] only calls on the triggering
    message, refreshes the roster, sends and pauses (0.35 s): it makes no
    membership and no report request.  Every message it sends goes to the chat
    of the triggering message, all from one and the same session, and there
    are at most [max(1, count)] of them. *)
Theorem saycmd_sends_bounded (env : environment) (msg : message) (s : state) :
  exists o s' evs,
    saycmd env msg s = (o, s') /\ trace s' = trace s ++ evs /\
    Forall (within [Host; Identity; Time; Send; Pause] msg [say_pause]) evs /\
    (senders evs = [] \/
     exists count parts target k,
       say_repeat (List.tl (fst (_extract_silent (get_args msg))))
       = Return (count, parts) /\
       1 <= count /\
       senders evs = List.repeat target k /\ (k <= Z.to_nat count)%nat).
Proof.
  exact (emits_and_sends _ _ _ (saycmd_emits env msg) (saycmd_sends env msg) s).
Qed.

(** Whatever the environment answers, [spamacccmd] only calls on the
    triggering message, refreshes the roster, sends and pauses (0.15 s and
    0.1 s): it makes no membership and no report request.  Every message goes
    to the chat of the triggering message, and the number of send attempts is
    either zero or exactly the count [max(1, int(last argument))]. *)
Theorem spamacccmd_sends_none_or_count (env : environment) (msg : message)
  (s : state) :
  exists o s' evs,
    spamacccmd env msg s = (o, s') /\ trace s' = trace s ++ evs /\
    Forall (within [Host; Identity; Time; Send; Pause] msg
              [spam_pause; spam_round_pause]) evs /\
    (senders evs = [] \/
     exists count,
       spam_count (fst (_extract_silent (get_args msg))) = Return (Some count) /\
       1 <= count /\ List.length (senders evs) = Z.to_nat count).
Proof.
  exact (emits_and_sends _ _ _ (spamacccmd_emits env msg) (spamacccmd_sends env msg) s).
Qed.

(** Whatever the environment answers, [listacccmd], [reportcmd] and [joincmd]
    never send a message; [listacccmd] only refreshes the roster and calls on
    the triggering message; [joincmd] adds membership requests and pauses of
    0.2 s; [reportcmd] adds membership requests, report requests and pauses of
    0.25 s.  Every answer, deletion and lookup is on the triggering message. *)
Theorem other_commands_never_send (env : environment) (msg : message) (s : state) :
  (exists o s' evs,
     listacccmd env msg s = (o, s') /\ trace s' = trace s ++ evs /\
     Forall (within [Host; Identity; Time] msg []) evs /\ senders evs = []) /\
  (exists o s' evs,
     reportcmd env msg s = (o, s') /\ trace s' = trace s ++ evs /\
     Forall (within [Host; Identity; Time; Membership; Report; Pause] msg
               [report_pause]) evs /\ senders evs = []) /\
  (exists o s' evs,
     joincmd env msg s = (o, s') /\ trace s' = trace s ++ evs /\
     Forall (within [Host; Identity; Time; Membership; Pause] msg [join_pause]) evs /\
     senders evs = []).
Proof.
  repeat split.
  - destruct (listacccmd_emits env msg s) as (o & s' & evs & E & T & F).
    exists o, s', evs. repeat (split; [assumption|]).
    apply no_send_senders. revert F. apply Forall_impl. intros e.
    apply within_no_send. cbn. intuition discriminate.
  - destruct (reportcmd_emits env msg s) as (o & s' & evs & E & T & F).
    exists o, s', evs. repeat (split; [assumption|]).
    apply no_send_senders. revert F. apply Forall_impl. intros e.
    apply within_no_send. cbn. intuition discriminate.
  - destruct (joincmd_emits env msg s) as (o & s' & evs & E & T & F).
    exists o, s', evs. repeat (split; [assumption|]).
    apply no_send_senders. revert F. apply Forall_impl. intros e.
    apply within_no_send. cbn. intuition discriminate.
Qed.

(** ** The count of [saycmd] and [spamacccmd] *)

Lemma refresh_no_send env force s roster s1 :
  _refresh_accounts env force s = (Return roster, s1) ->
  exists evs, trace s1 = trace s ++ evs /\ senders evs = [].
Proof.
  intros H.
  destruct (emits_refresh env force no_send eq_refl (fun _ => eq_refl) s)
    as (o & s' & evs & E & T & F).
  rewrite H in E. injection E as <- <-.
  exists evs. split; [exact T | now apply no_send_senders].
Qed.

Lemma spamacccmd_count env msg s words tok silent v :
  _extract_silent (get_args msg) = (words ++ [tok], silent) ->
  isdigit tok = true -> int tok = Return v ->
  spam_reaches_loop env msg s words ->
  exists o s' evs,
    spamacccmd env msg s = (o, s') /\ trace s' = trace s ++ evs /\
    List.length (senders evs) = Z.to_nat (Z.max 1 v).
Proof.
  intros Hargs Hd Hint (Hne & roster & s1 & reply & Href & Hr & Hsel & Hreply).
  destruct (refresh_no_send _ _ _ _ _ Href) as (evs1 & T1 & S1).
  unfold spamacccmd. rewrite Hargs.
  assert (Hlen : (List.length (words ++ [tok]) <? 2)%nat = false).
  { apply Nat.ltb_ge. rewrite length_app. destruct words; [congruence|]. cbn. lia. }
  rewrite Hlen.
  rewrite (bind_return _ _ _ _ _ Href).
  destruct roster as [|a0 rest0]; [congruence|].
  rewrite spam_count_last, Hd, Hint.
  unfold bind at 1, lift at 1.
  rewrite removelast_last.
  assert (Hpre : exists acc_idx w ws,
    (if (2 <=? List.length words)%nat
     then bind (lift (_resolve_account (List.hd "" words) (a0 :: rest0)))
            (fun idx => match idx with
                        | Some idx0 => ret (Some idx0, List.tl words)
                        | None => ret (None, words)
                        end)
     else ret (None, words)) s1
    = (Return (acc_idx, w :: ws), s1) /\
    forall k, acc_idx = Some k ->
      exists acc, nth_error (a0 :: rest0) k = Some acc).
  { destruct (2 <=? List.length words)%nat eqn:E2.
    - apply Nat.leb_le in E2. destruct (Hsel E2) as [found Hf]. rewrite Hf.
      unfold bind, lift, ret. destruct found as [k|].
      + destruct words as [|w0 [|w1 ws]]; cbn in E2; try lia.
        exists (Some k), w1, ws. split; [reflexivity|]. intros k' [= <-].
        apply resolve_some_lt in Hf.
        destruct (nth_error (a0 :: rest0) k) as [acc|] eqn:En; [now exists acc|].
        apply nth_error_None in En. lia.
      + destruct words as [|w ws]; [congruence|].
        exists None, w, ws. split; [reflexivity | discriminate].
    - destruct words as [|w ws]; [congruence|].
      exists None, w, ws. split; [reflexivity | discriminate]. }
  destruct Hpre as (acc_idx & w & ws & Epre & Hidx).
  rewrite (bind_return _ _ _ _ _ Epre).
  rewrite (bind_return _ _ _ _ _ (call_returns env _ _ _ Hreply)).
  set (s2 := State (self s1) (trace s1 ++ [Called (get_reply_message msg)])).
  assert (Htarget : exists target, target <> [] /\
    match acc_idx with
    | Some k =>
        match nth_error (a0 :: rest0) k with
        | Some acc => ret [acc]
        | None => raise IndexError
        end
    | None => ret (a0 :: rest0)
    end s2 = (Return target, s2)).
  { destruct acc_idx as [k|].
    - destruct (Hidx k eq_refl) as [acc ->]. now exists [acc].
    - now exists (a0 :: rest0). }
  destruct Htarget as (target & Hnt & Etarget).
  rewrite (bind_return _ _ _ _ _ Etarget).
  rewrite (bind_return _ _ _ _ _
             (spam_loop_run env target _ _ _ _ Hnt _ _ _)).
  match goal with
  | |- context [?tail (State (self s2) ?tr)] =>
      assert (Htail : emits no_send tail)
  end.
  { destruct silent; quietly msg. }
  set (loop := flat_map _ _).
  destruct (Htail (State (self s2) (trace s2 ++ loop)))
    as (o & s' & evs3 & E3 & T3 & F3).
  exists o, s', (evs1 ++ [Called (get_reply_message msg)] ++ loop ++ evs3).
  split; [exact E3|]. split.
  - rewrite T3. subst s2. cbn [trace]. rewrite T1. now rewrite <- !app_assoc.
  - rewrite !senders_app, S1, (no_send_senders _ F3), app_nil_r.
    subst loop. cbn [senders flat_map send_attempt List.app].
    now apply senders_count.
Qed.

Lemma saycmd_count env msg s words tok silent v target :
  _extract_silent (get_args msg) = (words ++ [tok], silent) ->
  isdigit tok = true -> int tok = Return v ->
  say_reaches_loop env msg s words target ->
  exists o s' evs k,
    saycmd env msg s = (o, s') /\ trace s' = trace s ++ evs /\
    senders evs = List.repeat target k /\
    (1 <= k <= Z.to_nat (Z.max 1 v))%nat /\
    ((k < Z.to_nat (Z.max 1 v))%nat -> exists e, o = Raise e).
Proof.
  intros Hargs Hd Hint
    (sel & w & ws & roster & s1 & idx & acc & reply
     & -> & Htext & Href & Hres & Hnth & <- & Hreply).
  destruct (refresh_no_send _ _ _ _ _ Href) as (evs1 & T1 & S1).
  unfold saycmd. rewrite Hargs.
  change ((sel :: w :: ws) ++ [tok]) with (sel :: w :: ws ++ [tok]).
  cbv iota beta.
  rewrite say_repeat_last, Hd, Hint.
  unfold bind at 1, lift at 1. rewrite Htext. cbn [negb].
  rewrite (bind_return _ _ _ _ _ Href).
  rewrite Hres. unfold bind at 1, lift at 1. rewrite Hnth.
  rewrite (bind_return _ _ _ _ _ (call_returns env _ _ _ Hreply)).
  set (s2 := State (self s1) (trace s1 ++ [Called (get_reply_message msg)])).
  assert (Hpos : (1 <= Z.to_nat (Z.max 1 v))%nat) by lia.
  destruct (say_loop_run env (acc_client acc) (chat_id msg)
              (strip (join " " (w :: ws))) (option_map msg_id reply) (Z.max 1 v)
              (Z.to_nat (Z.max 1 v)) s2)
    as (o & k & loop & E & Hs & Hk & Hout).
  unfold bind at 1. rewrite E. destruct o as [[]|e].
  - destruct Hout as (-> & _).
    assert (Htail : emits no_send
              (if negb silent
               then call env (answer msg (say_sent (idx + 1) (Z.max 1 v)))
               else call env (delete msg))).
    { destruct silent; quietly msg. }
    destruct (Htail (State (self s2) (trace s2 ++ loop)))
      as (o & s' & evs3 & E3 & T3 & F3).
    exists o, s', (evs1 ++ [Called (get_reply_message msg)] ++ loop ++ evs3),
      (Z.to_nat (Z.max 1 v)).
    split; [exact E3|]. split.
    + rewrite T3. subst s2. cbn [trace]. rewrite T1. now rewrite <- !app_assoc.
    + split; [|split; [lia | intros H; lia]].
      rewrite !senders_app, S1, (no_send_senders _ F3), app_nil_r, Hs.
      reflexivity.
  - destruct Hout as (Hk1 & _).
    exists (Raise e), (State (self s2) (trace s2 ++ loop)),
      (evs1 ++ [Called (get_reply_message msg)] ++ loop), k.
    split; [reflexivity|]. split.
    + subst s2. cbn [trace]. rewrite T1. now rewrite <- !app_assoc.
    + split; [|split; [lia | intros _; now exists e]].
      rewrite !senders_app, S1, Hs. reflexivity.
Qed.

(** C10.  A trailing count made of decimal digits is read as
    [max(1, value)] by [spamacccmd] and by [saycmd], so the commands never
    loop zero times: the count they parse is [max(1, value)].  Whenever [spamacccmd] gets as far as its loop it makes
    exactly [max(1, value)] send attempts, hence at least one, and exactly
    one for a count of value 0.  Whenever [saycmd] gets as far as its loop it
    makes at least one and at most [max(1, value)] send attempts, all from
    the selected session, fewer than [max(1, value)] only when it raises,
    and exactly one for a count of value 0. *)
Theorem count_is_at_least_one (env : environment) (msg : message) (s : state)
  (words : list string) (tok : string) (silent : bool) :
  _extract_silent (get_args msg) = (words ++ [tok], silent) ->
  truthy tok = true -> all_chars is_decimal tok = true ->
  exists v,
    int tok = Return v /\ 0 <= v /\
    spam_count (words ++ [tok]) = Return (Some (Z.max 1 v)) /\
    (forall w ws, say_repeat (w :: ws ++ [tok]) = Return (Z.max 1 v, w :: ws)) /\
    (spam_reaches_loop env msg s words ->
     exists o s' evs,
       spamacccmd env msg s = (o, s') /\ trace s' = trace s ++ evs /\
       List.length (senders evs) = Z.to_nat (Z.max 1 v) /\
       (1 <= List.length (senders evs))%nat /\
       (v = 0 -> List.length (senders evs) = 1%nat)) /\
    (forall target, say_reaches_loop env msg s words target ->
     exists o s' evs k,
       saycmd env msg s = (o, s') /\ trace s' = trace s ++ evs /\
       senders evs = List.repeat target k /\
       (1 <= k <= Z.to_nat (Z.max 1 v))%nat /\
       (v = 0 -> k = 1%nat) /\
       ((k < Z.to_nat (Z.max 1 v))%nat -> exists e, o = Raise e)).
Proof.
  intros Hargs Ht Hdec.
  destruct (int_of_decimal tok Ht Hdec) as (Hd & v & Hint & Hv).
  exists v. split; [exact Hint|]. split; [exact Hv|].
  split; [now rewrite spam_count_last, Hd, Hint|].
  split; [intros w ws; now rewrite say_repeat_last, Hd, Hint|].
  split.
  - intros Hreach.
    destruct (spamacccmd_count env msg s words tok silent v Hargs Hd Hint Hreach)
      as (o & s' & evs & E & T & Hn).
    exists o, s', evs. repeat (split; [assumption|]). split; [lia|].
    intros ->. now rewrite Hn.
  - intros target Hreach.
    destruct (saycmd_count env msg s words tok silent v target Hargs Hd Hint Hreach)
      as (o & s' & evs & k & E & T & Hs & Hk & Hraise).
    exists o, s', evs, k. repeat (split; [assumption|]). split; [|exact Hraise].
    intros ->. change (Z.to_nat (Z.max 1 0)) with 1%nat in Hk. lia.
Qed.

Lemma count_is_at_least_one_witness :
  let msg := Message 5 10 ["2"; "hello"; "0"] in
  let s := start (fresh_module 0 [0; 1]%nat) in
  _extract_silent (get_args msg) = (["2"; "hello"] ++ ["0"], false) /\
  truthy "0" = true /\ all_chars is_decimal "0" = true /\
  spam_reaches_loop all_fine msg s ["2"; "hello"] /\
  say_reaches_loop all_fine msg s ["2"; "hello"] (Session 1) /\
  List.length (senders (trace (snd (spamacccmd all_fine msg s)))) = 1%nat /\
  senders (trace (snd (saycmd all_fine msg s))) = [Session 1].
Proof.
  cbv zeta.
  assert (Hspam : spam_reaches_loop all_fine (Message 5 10 ["2"; "hello"; "0"])
                    (start (fresh_module 0 [0; 1]%nat)) ["2"; "hello"]).
  { split; [discriminate|].
    eexists _, _, _. split; [vm_compute; reflexivity|].
    split; [discriminate|]. split; [|reflexivity].
    intros _. eexists. vm_compute. reflexivity. }
  assert (Hsay : say_reaches_loop all_fine (Message 5 10 ["2"; "hello"; "0"])
                   (start (fresh_module 0 [0; 1]%nat)) ["2"; "hello"] (Session 1)).
  { eexists "2", "hello", [], _, _, 1%nat, _, _.
    split; [reflexivity|]. split; [reflexivity|].
    split; [vm_compute; reflexivity|].
    split; [reflexivity|]. split; [reflexivity|]. split; reflexivity. }
  split; [reflexivity|]. split; [reflexivity|]. split; [reflexivity|].
  split; [exact Hspam|]. split; [exact Hsay|].
  destruct (count_is_at_least_one all_fine (Message 5 10 ["2"; "hello"; "0"])
              (start (fresh_module 0 [0; 1]%nat)) ["2"; "hello"] "0" false
              eq_refl eq_refl eq_refl)
    as (v & Hint & _ & _ & _ & Hsp & Hsy).
  assert (v = 0) by (vm_compute in Hint; congruence). subst v.
  split.
  - destruct (Hsp Hspam) as (o & s' & evs & E & T & _ & _ & H0).
    rewrite E. cbn [snd]. rewrite T. exact (H0 eq_refl).
  - destruct (Hsy (Session 1) Hsay) as (o & s' & evs & k & E & T & Hs & _ & H0 & _).
    rewrite E. cbn [snd]. rewrite T. cbn [start trace List.app].
    rewrite Hs, (H0 eq_refl). reflexivity.
Defined.
